(** * Real-time task board client: the page component and its card modal

    A shallow embedding of [frontend/app/page.tsx] (the [Home] component and
    its [CardModal]) as an event-driven state machine, and the properties of
    its synchronisation logic.  The markup, the search filter and the
    colours are left out, and so is the clean-up of the first effect: the
    client is followed from the mounting of [Home] for as long as it stays
    mounted.

    The component is asynchronous JavaScript running on one event loop.  The
    embedding follows that structure:
    - the React state of [Home] and of the mounted [CardModal] is a record;
    - every handler is a computation in a small state-and-exception monad
      over the whole client ([world]);
    - an [async] function is cut at each [await]: the part before it sends an
      HTTP request and registers a continuation ([cont]), and [resume] is the
      part after it, run when the response (or the failure) arrives;
    - the environment (server, network, timers, user) is a stream of
      [event]s, and [step] dispatches one event to the handler the program
      registered for it. *)

From Stdlib Require Import Ascii String ZArith.
From stdpp Require Import base option list gmap strings pretty.

#[local] Set Warnings "-register-all".
#[local] Open Scope string_scope.
#[local] Open Scope list_scope.

(** ** JavaScript values *)

(** Values as [JSON.parse] and axios hand them to the program.  Numbers are
    the integers the program handles (identifiers, list positions). *)
Inductive value :=
| VUndefined
| VNull
| VBool (b : bool)
| VNum (z : Z)
| VStr (s : string)
| VArr (l : list value)
| VObj (o : gmap string value).

(** A JavaScript object used as a record of named properties. *)
Abbreviation obj := (gmap string value).

Inductive error :=
| SyntaxError                      (* thrown by [JSON.parse] *)
| TypeError                        (* property read on [null]/[undefined] *)
| AxiosError (status : option nat) (* rejected request: no response, or a non-2xx status *).

Module JS.

(** [o.k] on an object: a missing property reads as [undefined]. *)
Definition get (o : obj) (k : string) : value := default VUndefined (o !! k).

(** [v.k] on any value, for a key that is not an inherited property, an
    array index or [length] (the program reads [type] this way): reading a
    property of [null] or [undefined] throws, a primitive or an array has
    no such property. *)
Definition member (v : value) (k : string) : error + value :=
  match v with
  | VUndefined | VNull => inl TypeError
  | VObj o => inr (get o k)
  | _ => inr VUndefined
  end.

(** [v === "lit"]. *)
Definition is_string (v : value) (lit : string) : bool :=
  match v with VStr s => bool_decide (s = lit) | _ => false end.

(** [a === b].  Primitives are compared by type and value.  Arrays and
    objects are compared by reference in JavaScript; identifiers are JSON
    primitives, and for compound values this answers [false], as for two
    values decoded from different responses. *)
Definition strict_eq (a b : value) : bool :=
  match a, b with
  | VUndefined, VUndefined | VNull, VNull => true
  | VBool x, VBool y => bool_decide (x = y)
  | VNum x, VNum y => bool_decide (x = y)
  | VStr x, VStr y => bool_decide (x = y)
  | _, _ => false
  end.

(** [{...target, ...source}]: the properties of [source] are written over
    those of [target]. *)
Definition spread (target source : obj) : obj := source ∪ target.

(** [`${v}`]: the string conversion of a template literal. *)
Fixpoint to_string (v : value) : string :=
  match v with
  | VUndefined => "undefined"
  | VNull => "null"
  | VBool true => "true"
  | VBool false => "false"
  | VNum z => pretty z
  | VStr s => s
  | VArr l =>
      let element x :=
        match x with VUndefined | VNull => "" | _ => to_string x end in
      (fix join (l : list value) : string :=
         match l with
         | [] => ""
         | [x] => element x
         | x :: rest => element x +:+ "," +:+ join rest
         end) l
  | VObj _ => "[object Object]"
  end.

(** White space and line terminators of ECMAScript among the code units
    below 256, which is what a [string] here holds: TAB, LF, VT, FF, CR,
    SP and NBSP. *)
Definition is_white_space (c : ascii) : bool :=
  match N_of_ascii c with
  | 9 | 10 | 11 | 12 | 13 | 32 | 160 => true
  | _ => false
  end%N.

Fixpoint trim_start (s : string) : string :=
  match s with
  | String c rest => if is_white_space c then trim_start rest else s
  | EmptyString => EmptyString
  end.

Fixpoint trim_end (s : string) : string :=
  match s with
  | EmptyString => EmptyString
  | String c rest =>
      match trim_end rest with
      | EmptyString => if is_white_space c then EmptyString else String c EmptyString
      | kept => String c kept
      end
  end.

(** [s.trim()] *)
Definition trim (s : string) : string := trim_end (trim_start s).

(** Truthiness of a string: only the empty string is falsy. *)
Definition truthy_string (s : string) : bool :=
  match s with EmptyString => false | _ => true end.

End JS.

(** ** Data exchanged with the server *)

(** A card is handled as a JavaScript object: the program reads the
    properties it needs and copies the others ([...card]). *)
Abbreviation Card := (gmap string value).

Record Column := {
  column_id : value;
  column_name : value;
  cards : list Card
}.

Record Board := {
  board_id : value;
  board_name : value;
  columns : list Column
}.

Inductive method := GET | POST | PUT | DELETE.

(** One axios call: [axios.get(url)], [axios.post(url, data)], ... *)
Record request := Request {
  meth : method;
  url : string;
  body : option obj
}.

(** The [data] of a successful response, by the endpoint that produced it:
    [{boards: [...]}], a full board, [{comments: [...]}], or a body the
    client never reads. *)
Inductive payload :=
| Boards (boards : list obj)
| Snapshot (b : Board)
| Comments (comments : list obj)
| Other (v : value).

Inductive reply :=
| Fulfilled (d : payload)
| Rejected (e : error).

(** The result of a drag gesture, as the drag-and-drop library reports it. *)
Record DraggableLocation := {
  droppableId : string;
  index : nat
}.

Record DropResult := {
  draggableId : string;
  source : DraggableLocation;
  destination : option DraggableLocation
}.

(** ** The state of the client *)

(** State and props of a mounted [CardModal]. *)
Record CardModal := {
  instance : nat;          (* which mount of the component this is *)
  card : Card;             (* prop *)
  title : value;
  description : value;
  priority : value;
  comments : list obj;
  newComment : string
}.

Inductive readyState := CONNECTING | OPEN | CLOSING | CLOSED.

#[export] Instance readyState_eq_dec : EqDecision readyState.
Proof. solve_decision. Defined.

(** A WebSocket.  [wired] tells whether [onopen], [onmessage], [onerror] and
    [onclose] were assigned to it. *)
Record socket := {
  state : readyState;
  wired : bool
}.

(** The callbacks handed to [setTimeout]. *)
Inductive callback := Reconnect.

Record timer := {
  delay : nat;             (* milliseconds *)
  action : callback
}.

(** The code that follows each [await], to be run on the response. *)
Inductive cont :=
| loadBoard_boards
| loadBoard_snapshot
| createCard_post
| updateCard_put
| deleteCard_delete
| onDragEnd_post
| loadComments_get (inst : nat)
| addComment_post (inst : nat) (c : Card).

Inductive level := LOG | ERROR.

Record world := World {
  (* state of [Home] *)
  board : option Board;
  ws : option nat;
  username : string;
  showCardModal : bool;
  selectedCard : option Card;
  (* the [CardModal] on screen, if any, and how many were mounted so far *)
  modal : option CardModal;
  mounts : nat;
  (* the JavaScript runtime *)
  sockets : list socket;
  timers : gmap nat timer;
  scheduled : nat;
  pending : gmap nat cont;
  issued : list request;
  console : list (level * string);
  uncaught : list error
}.

Definition API_URL : string := "http://localhost:8000".
Definition WS_URL : string := "ws://localhost:8000/ws".

(** Field updates. *)
Definition set_board (x : option Board) (w : world) : world :=
  World x (ws w) (username w) (showCardModal w) (selectedCard w) (modal w) (mounts w)
        (sockets w) (timers w) (scheduled w) (pending w) (issued w) (console w) (uncaught w).
Definition set_ws (x : option nat) (w : world) : world :=
  World (board w) x (username w) (showCardModal w) (selectedCard w) (modal w) (mounts w)
        (sockets w) (timers w) (scheduled w) (pending w) (issued w) (console w) (uncaught w).
Definition set_username (x : string) (w : world) : world :=
  World (board w) (ws w) x (showCardModal w) (selectedCard w) (modal w) (mounts w)
        (sockets w) (timers w) (scheduled w) (pending w) (issued w) (console w) (uncaught w).
Definition set_showCardModal (x : bool) (w : world) : world :=
  World (board w) (ws w) (username w) x (selectedCard w) (modal w) (mounts w)
        (sockets w) (timers w) (scheduled w) (pending w) (issued w) (console w) (uncaught w).
Definition set_selectedCard (x : option Card) (w : world) : world :=
  World (board w) (ws w) (username w) (showCardModal w) x (modal w) (mounts w)
        (sockets w) (timers w) (scheduled w) (pending w) (issued w) (console w) (uncaught w).
Definition set_modal (x : option CardModal) (w : world) : world :=
  World (board w) (ws w) (username w) (showCardModal w) (selectedCard w) x (mounts w)
        (sockets w) (timers w) (scheduled w) (pending w) (issued w) (console w) (uncaught w).
Definition set_mounts (x : nat) (w : world) : world :=
  World (board w) (ws w) (username w) (showCardModal w) (selectedCard w) (modal w) x
        (sockets w) (timers w) (scheduled w) (pending w) (issued w) (console w) (uncaught w).
Definition set_sockets (x : list socket) (w : world) : world :=
  World (board w) (ws w) (username w) (showCardModal w) (selectedCard w) (modal w) (mounts w)
        x (timers w) (scheduled w) (pending w) (issued w) (console w) (uncaught w).
Definition set_timers (x : gmap nat timer) (n : nat) (w : world) : world :=
  World (board w) (ws w) (username w) (showCardModal w) (selectedCard w) (modal w) (mounts w)
        (sockets w) x n (pending w) (issued w) (console w) (uncaught w).
Definition set_pending (x : gmap nat cont) (w : world) : world :=
  World (board w) (ws w) (username w) (showCardModal w) (selectedCard w) (modal w) (mounts w)
        (sockets w) (timers w) (scheduled w) x (issued w) (console w) (uncaught w).
Definition set_issued (x : list request) (w : world) : world :=
  World (board w) (ws w) (username w) (showCardModal w) (selectedCard w) (modal w) (mounts w)
        (sockets w) (timers w) (scheduled w) (pending w) x (console w) (uncaught w).
Definition set_console (x : list (level * string)) (w : world) : world :=
  World (board w) (ws w) (username w) (showCardModal w) (selectedCard w) (modal w) (mounts w)
        (sockets w) (timers w) (scheduled w) (pending w) (issued w) x (uncaught w).
Definition set_uncaught (x : list error) (w : world) : world :=
  World (board w) (ws w) (username w) (showCardModal w) (selectedCard w) (modal w) (mounts w)
        (sockets w) (timers w) (scheduled w) (pending w) (issued w) (console w) x.

Definition set_comments (x : list obj) (m : CardModal) : CardModal :=
  {| instance := instance m; card := card m; title := title m;
     description := description m; priority := priority m;
     comments := x; newComment := newComment m |}.
Definition set_newComment (x : string) (m : CardModal) : CardModal :=
  {| instance := instance m; card := card m; title := title m;
     description := description m; priority := priority m;
     comments := comments m; newComment := x |}.
Definition set_title (x : value) (m : CardModal) : CardModal :=
  {| instance := instance m; card := card m; title := x;
     description := description m; priority := priority m;
     comments := comments m; newComment := newComment m |}.
Definition set_description (x : value) (m : CardModal) : CardModal :=
  {| instance := instance m; card := card m; title := title m;
     description := x; priority := priority m;
     comments := comments m; newComment := newComment m |}.
Definition set_priority (x : value) (m : CardModal) : CardModal :=
  {| instance := instance m; card := card m; title := title m;
     description := description m; priority := x;
     comments := comments m; newComment := newComment m |}.
Definition set_card (x : Card) (m : CardModal) : CardModal :=
  {| instance := instance m; card := x; title := title m;
     description := description m; priority := priority m;
     comments := comments m; newComment := newComment m |}.

(** ** Handlers as computations *)

(** A handler runs to completion on the event loop: it transforms the
    client and either returns or throws.  What it changed before throwing
    stays changed. *)
Inductive outcome (A : Type) :=
| Done (a : A)
| Thrown (e : error).
Arguments Done {A} a.
Arguments Thrown {A} e.

Definition M (A : Type) : Type := world -> outcome A * world.

#[export] Instance M_ret : MRet M := λ A a w, (Done a, w).
#[export] Instance M_bind : MBind M := λ A B f m w,
  match m w with
  | (Done a, w') => f a w'
  | (Thrown e, w') => (Thrown e, w')
  end.

Definition throw {A} (e : error) : M A := λ w, (Thrown e, w).
Definition gets {A} (f : world -> A) : M A := λ w, (Done (f w), w).
Definition modify (f : world -> world) : M unit := λ w, (Done (), f w).

(** [try { body } catch (error) { handler(error) }] *)
Definition try_catch (body : M unit) (handler : error -> M unit) : M unit := λ w,
  match body w with
  | (Done a, w') => (Done a, w')
  | (Thrown e, w') => handler e w'
  end.

Definition lift {A} (r : error + A) : M A :=
  match r with inl e => throw e | inr a => mret a end.

Definition console_log (msg : string) : M unit :=
  modify (λ w, set_console (console w ++ [(LOG, msg)]) w).
Definition console_error (msg : string) : M unit :=
  modify (λ w, set_console (console w ++ [(ERROR, msg)]) w).

(** [await axios...]: the request leaves, and the rest of the [async]
    function, [k], waits for the response under a fresh request number. *)
Definition await (k : cont) (r : request) : M unit :=
  modify (λ w, set_issued (issued w ++ [r]) (set_pending (<[length (issued w) := k]> (pending w)) w)).

(** [new WebSocket(WS_URL)]: a socket in state CONNECTING. *)
Definition new_WebSocket (with_handlers : bool) : M nat := λ w,
  (Done (length (sockets w)),
   set_sockets (sockets w ++ [{| state := CONNECTING; wired := with_handlers |}]) w).

(** [setTimeout(cb, ms)] *)
Definition setTimeout (cb : callback) (ms : nat) : M unit :=
  modify (λ w, set_timers (<[scheduled w := {| delay := ms; action := cb |}]> (timers w))
                          (S (scheduled w)) w).

(** State setters of [Home]. *)
Definition setBoard (b : option Board) : M unit := modify (set_board b).
Definition setWs (s : option nat) : M unit := modify (set_ws s).
Definition setUsername (u : string) : M unit := modify (set_username u).
Definition setShowCardModal (b : bool) : M unit := modify (set_showCardModal b).
Definition setSelectedCard (c : option Card) : M unit := modify (set_selectedCard c).

(** State setters of a [CardModal]: an update addressed to an instance that
    is no longer mounted is dropped. *)
Definition update_modal (inst : nat) (f : CardModal -> CardModal) : M unit :=
  modify (λ w,
    match modal w with
    | Some m => if bool_decide (instance m = inst) then set_modal (Some (f m)) w else w
    | None => w
    end).
Definition setComments (inst : nat) (cs : list obj) : M unit := update_modal inst (set_comments cs).
Definition setNewComment (inst : nat) (s : string) : M unit := update_modal inst (set_newComment s).

(** ** A reference [JSON.parse]

    The program is stated over any [JSON.parse] (a parameter of the section
    below); this one runs it on concrete wire messages. *)
Module JSON.

(** The double quote. *)
Definition quote : ascii := ascii_of_N 34.

Definition is_ws (c : ascii) : bool :=
  match N_of_ascii c with 9 | 10 | 13 | 32 => true | _ => false end%N.

Fixpoint skip_ws (s : string) : string :=
  match s with
  | String c rest => if is_ws c then skip_ws rest else s
  | EmptyString => EmptyString
  end.

Definition digit (c : ascii) : option Z :=
  let n := N_of_ascii c in
  if ((48 <=? n) && (n <=? 57))%N then Some (Z.of_N n - 48)%Z else None.

Definition hex (c : ascii) : option N :=
  let n := N_of_ascii c in
  if ((48 <=? n) && (n <=? 57))%N then Some (n - 48)%N
  else if ((65 <=? n) && (n <=? 70))%N then Some (n - 55)%N
  else if ((97 <=? n) && (n <=? 102))%N then Some (n - 87)%N
  else None.

(** The digits at the head of [s], read after [acc]. *)
Fixpoint digits (acc : Z) (s : string) : Z * string :=
  match s with
  | String c rest =>
      match digit c with
      | Some d => digits (10 * acc + d) rest
      | None => (acc, s)
      end
  | EmptyString => (acc, s)
  end.

(** An integer literal: [0], or a non-zero digit and more digits; a
    fraction or an exponent is outside the fragment. *)
Definition natural (s : string) : option (Z * string) :=
  match s with
  | String c rest =>
      match digit c with
      | Some d =>
          let '(n, rest') := if bool_decide (d = 0%Z) then (0%Z, rest) else digits d rest in
          match rest' with
          | String c' _ =>
              if bool_decide (c' ∈ ["."; "e"; "E"]%char) || bool_decide (is_Some (digit c'))
              then None else Some (n, rest')
          | EmptyString => Some (n, rest')
          end
      | None => None
      end
  | EmptyString => None
  end.

(** The characters of a string literal after its opening quote, up to and
    including the closing one. *)
Fixpoint chars (s : string) : option (string * string) :=
  match s with
  | EmptyString => None
  | String c rest =>
      if bool_decide (c = quote) then Some (EmptyString, rest)
      else if bool_decide (c = "\"%char) then
        match rest with
        | String e rest' =>
            let plain (x : ascii) := '(str, r) ← chars rest'; Some (String x str, r) in
            if bool_decide (e = quote) then plain quote
            else if bool_decide (e = "\"%char) then plain "\"%char
            else if bool_decide (e = "/"%char) then plain "/"%char
            else if bool_decide (e = "b"%char) then plain (ascii_of_N 8)
            else if bool_decide (e = "f"%char) then plain (ascii_of_N 12)
            else if bool_decide (e = "n"%char) then plain (ascii_of_N 10)
            else if bool_decide (e = "r"%char) then plain (ascii_of_N 13)
            else if bool_decide (e = "t"%char) then plain (ascii_of_N 9)
            else if bool_decide (e = "u"%char) then
              match rest' with
              | String h1 (String h2 (String h3 (String h4 rest''))) =>
                  a ← hex h1; b ← hex h2; c ← hex h3; d ← hex h4;
                  if bool_decide (a = 0%N ∧ b = 0%N) then
                    '(str, r) ← chars rest''; Some (String (ascii_of_N (16 * c + d)) str, r)
                  else None
              | _ => None
              end
            else None
        | EmptyString => None
        end
      else if (N_of_ascii c <? 32)%N then None
      else '(str, r) ← chars rest; Some (String c str, r)
  end.

(** [s] without its prefix [word], when it starts with it. *)
Fixpoint after (word s : string) : option string :=
  match word, s with
  | EmptyString, _ => Some s
  | String a word', String b s' => if bool_decide (a = b) then after word' s' else None
  | String _ _, EmptyString => None
  end.

Definition literal (word : string) (v : value) (s : string) : option (value * string) :=
  rest ← after word s; Some (v, rest).

Fixpoint parse_value (fuel : nat) (s : string) {struct fuel} : option (value * string) :=
  match fuel with
  | 0 => None
  | S fuel =>
      match skip_ws s with
      | String c rest =>
          if bool_decide (c = quote) then '(str, r) ← chars rest; Some (VStr str, r)
          else
            match c with
            | "n" => literal "null" VNull (String c rest)
            | "t" => literal "true" (VBool true) (String c rest)
            | "f" => literal "false" (VBool false) (String c rest)
            | "-" => '(n, r) ← natural rest; Some (VNum (- n), r)
            | "[" =>
                match skip_ws rest with
                | String "]" r => Some (VArr [], r)
                | _ => parse_elements fuel [] rest
                end
            | "{" =>
                match skip_ws rest with
                | String "}" r => Some (VObj ∅, r)
                | _ => parse_members fuel ∅ rest
                end
            | _ => '(n, r) ← natural (String c rest); Some (VNum n, r)
            end%char
      | EmptyString => None
      end
  end
with parse_elements (fuel : nat) (acc : list value) (s : string) {struct fuel}
  : option (value * string) :=
  match fuel with
  | 0 => None
  | S fuel =>
      '(v, r) ← parse_value fuel s;
      match skip_ws r with
      | String "," r' => parse_elements fuel (acc ++ [v]) r'
      | String "]" r' => Some (VArr (acc ++ [v]), r')
      | _ => None
      end
  end
with parse_members (fuel : nat) (acc : gmap string value) (s : string) {struct fuel}
  : option (value * string) :=
  match fuel with
  | 0 => None
  | S fuel =>
      match skip_ws s with
      | String c rest =>
          if bool_decide (c = quote) then
            '(k, r1) ← chars rest;
            match skip_ws r1 with
            | String ":" r2 =>
                '(v, r3) ← parse_value fuel r2;
                match skip_ws r3 with
                | String "," r4 => parse_members fuel (<[k := v]> acc) r4
                | String "}" r4 => Some (VObj (<[k := v]> acc), r4)
                | _ => None
                end
            | _ => None
            end
          else None
      | EmptyString => None
      end
  end.

(** [JSON.parse(text)] on the fragment of JSON whose numbers are integers
    and whose strings hold code units below 256; [None] stands for the
    SyntaxError. *)
Definition parse (text : string) : option value :=
  match parse_value (2 * String.length text + 2) text with
  | Some (v, rest) =>
      match skip_ws rest with
      | EmptyString => Some v
      | _ => None
      end
  | None => None
  end.

(** The text of a string literal holding [s], for an [s] without quote,
    backslash or control character. *)
Definition quoted (s : string) : string :=
  String quote (s +:+ String quote EmptyString).

End JSON.

(** ** The program *)

Section Program.

(** [JSON.parse] of the runtime: [None] when it throws SyntaxError. *)
Variable JSON_parse : string -> option value.

(** *** [Home]: loading the board (page.tsx, lines 62-75) *)

Definition loadBoard_catch (e : error) : M unit :=
  console_error "Error loading board:".

Definition loadBoard : M unit :=
  try_catch
    (await loadBoard_boards (Request GET (API_URL +:+ "/api/boards") None))
    loadBoard_catch.

(** After the first [await]: [response.data.boards] has arrived. *)
Definition loadBoard_then_boards (boards : list obj) : M unit :=
  try_catch
    (match boards with
     | first :: _ =>
         let boardId := JS.get first "id" in
         await loadBoard_snapshot
           (Request GET (API_URL +:+ "/api/boards/" +:+ JS.to_string boardId) None)
     | [] => mret ()
     end)
    loadBoard_catch.

(** After the second [await]: [boardResponse.data] has arrived. *)
Definition loadBoard_then_snapshot (b : Board) : M unit :=
  try_catch (setBoard (Some b)) loadBoard_catch.

(** *** [Home]: push notifications (lines 20-52 and 77-92) *)

Definition recognized (type : value) : bool :=
  JS.is_string type "card_created" || JS.is_string type "card_updated" ||
  JS.is_string type "card_moved" || JS.is_string type "card_deleted" ||
  JS.is_string type "column_created" || JS.is_string type "comment_created".

Definition handleWebSocketMessage (message : value) : M unit :=
  console_log "WebSocket message:";;
  type ← lift (JS.member message "type");
  if recognized type then loadBoard else mret ().

Definition onopen : M unit := console_log "WebSocket connected".

Definition onmessage (data : string) : M unit :=
  message ← (match JSON_parse data with
             | Some v => mret v
             | None => throw SyntaxError
             end);
  handleWebSocketMessage message.

Definition onerror : M unit := console_error "WebSocket error:".

Definition onclose : M unit :=
  console_log "WebSocket disconnected";;
  setTimeout Reconnect 3000.

(** The function given to [setTimeout] in [onclose]. *)
Definition reconnect : M unit :=
  newWebsocket ← new_WebSocket false;
  setWs (Some newWebsocket).

(** The two effects run when [Home] mounts; [random] is
    [Math.floor(Math.random() * 1000)]. *)
Definition mount_effects (random : nat) : M unit :=
  websocket ← new_WebSocket true;
  setWs (Some websocket);;
  loadBoard;;
  setUsername ("Guest_" +:+ pretty random).

(** *** [Home]: card operations (lines 94-161) *)

Definition createCard_catch (e : error) : M unit :=
  console_error "Error creating card:".

(** [answer] is what [prompt] returned: [null] (cancelled) or the text. *)
Definition createCard (columnId : value) (answer : option string) : M unit :=
  match answer with
  | None => mret ()
  | Some title =>
      if negb (JS.truthy_string title) then mret ()
      else
        username ← gets username;
        try_catch
          (await createCard_post
             (Request POST (API_URL +:+ "/api/cards")
                (Some {[ "column_id" := columnId;
                         "title" := VStr title;
                         "description" := VStr "";
                         "priority" := VStr "medium";
                         "labels" := VArr [];
                         "assigned_to" := VStr username ]})))
          createCard_catch
  end.

Definition find_card (cardId : value) (column : Column) : option Card :=
  List.find (λ c, JS.strict_eq (JS.get c "id") cardId) (cards column).

Fixpoint findCard_in (cols : list Column) (cardId : value) : option Card :=
  match cols with
  | column :: rest =>
      match find_card cardId column with
      | Some card => Some card
      | None => findCard_in rest cardId
      end
  | [] => None
  end.

(** [findCard]: iterating [board.columns] throws when [board] is [null]. *)
Definition findCard (cardId : value) : M (option Card) :=
  b ← gets board;
  match b with
  | Some b => mret (findCard_in (columns b) cardId)
  | None => throw TypeError
  end.

(** The body of the update request:
    [{column_id: card.column_id, ...card, ...updates}]. *)
Definition update_payload (card : Card) (updates : obj) : obj :=
  JS.spread (JS.spread {[ "column_id" := JS.get card "column_id" ]} card) updates.

Definition updateCard_catch (e : error) : M unit :=
  console_error "Error updating card:".

Definition updateCard (cardId : value) (updates : obj) : M unit :=
  try_catch
    (found ← findCard cardId;
     match found with
     | Some card =>
         await updateCard_put
           (Request PUT (API_URL +:+ "/api/cards/" +:+ JS.to_string cardId)
              (Some (update_payload card updates)))
     | None => throw TypeError     (* [card.column_id] on [null] *)
     end)
    updateCard_catch.

Definition updateCard_then : M unit :=
  try_catch (setShowCardModal false;; setSelectedCard None) updateCard_catch.

Definition deleteCard_catch (e : error) : M unit :=
  console_error "Error deleting card:".

(** [confirmed] is the answer of [window.confirm]. *)
Definition deleteCard (cardId : value) (confirmed : bool) : M unit :=
  if negb confirmed then mret ()
  else
    try_catch
      (await deleteCard_delete
         (Request DELETE (API_URL +:+ "/api/cards/" +:+ JS.to_string cardId) None))
      deleteCard_catch.

Definition deleteCard_then : M unit :=
  try_catch (setShowCardModal false;; setSelectedCard None) deleteCard_catch.

Definition onDragEnd_catch (e : error) : M unit :=
  console_error "Error moving card:".

Definition onDragEnd (result : DropResult) : M unit :=
  match destination result with
  | None => mret ()
  | Some destination =>
      try_catch
        (await onDragEnd_post
           (Request POST (API_URL +:+ "/api/cards/move")
              (Some {[ "card_id" := VStr (draggableId result);
                       "target_column_id" := VStr (droppableId destination);
                       "position" := VNum (Z.of_nat (index destination)) ]})))
        onDragEnd_catch
  end.

Definition openCardModal (card : Card) : M unit :=
  setSelectedCard (Some card);;
  setShowCardModal true.

(** The [onClose] prop given to the modal. *)
Definition onClose : M unit :=
  setShowCardModal false;;
  setSelectedCard None.

(** *** [CardModal] (lines 326-366) *)

Definition loadComments_catch (e : error) : M unit :=
  console_error "Error loading comments:".

(** [inst] and [c] are the instance the closure belongs to and its [card]
    prop. *)
Definition loadComments (inst : nat) (c : Card) : M unit :=
  try_catch
    (await (loadComments_get inst)
       (Request GET
          (API_URL +:+ "/api/cards/" +:+ JS.to_string (JS.get c "id") +:+ "/comments")
          None))
    loadComments_catch.

Definition loadComments_then (inst : nat) (cs : list obj) : M unit :=
  try_catch (setComments inst cs) loadComments_catch.

Definition addComment_catch (e : error) : M unit :=
  console_error "Error adding comment:".

(** [username] is the prop the modal received from [Home]. *)
Definition addComment (m : CardModal) (username : string) : M unit :=
  if negb (JS.truthy_string (JS.trim (newComment m))) then mret ()
  else
    try_catch
      (await (addComment_post (instance m) (card m))
         (Request POST (API_URL +:+ "/api/comments")
            (Some {[ "card_id" := JS.get (card m) "id";
                     "author" := VStr username;
                     "text" := VStr (newComment m) ]})))
      addComment_catch.

Definition addComment_then (inst : nat) (c : Card) : M unit :=
  try_catch (setNewComment inst "";; loadComments inst c) addComment_catch.

Definition handleSave (m : CardModal) : M unit :=
  updateCard (JS.get (card m) "id")
    {[ "title" := title m; "description" := description m; "priority" := priority m ]}.

(** Mounting a [CardModal]: the [useState] initialisers, then the effect. *)
Definition mount_CardModal (c : Card) : M unit :=
  inst ← gets mounts;
  modify (λ w,
    set_mounts (S inst)
      (set_modal (Some {| instance := inst; card := c;
                          title := JS.get c "title";
                          description := JS.get c "description";
                          priority := JS.get c "priority";
                          comments := []; newComment := "" |}) w));;
  loadComments inst c.

(** What React does after a handler has run:
    [{showCardModal && selectedCard && <CardModal card={selectedCard} ... />}].
    A card can only be opened while no modal is on screen, so the [card]
    prop of a mounted modal does not change. *)
Definition render : M unit :=
  w ← gets id;
  match showCardModal w, selectedCard w with
  | true, Some c =>
      match modal w with
      | None => mount_CardModal c
      | Some _ => mret ()
      end
  | _, _ => modify (set_modal None)
  end.

(** ** The event loop *)

(** The code after an [await], by the continuation that waits and the
    outcome of the request; [None] when the response does not have the
    shape of the endpoint's. *)
Definition resume (k : cont) (r : reply) : option (M unit) :=
  match k, r with
  | loadBoard_boards, Fulfilled (Boards boards) => Some (loadBoard_then_boards boards)
  | loadBoard_boards, Rejected e => Some (loadBoard_catch e)
  | loadBoard_snapshot, Fulfilled (Snapshot b) => Some (loadBoard_then_snapshot b)
  | loadBoard_snapshot, Rejected e => Some (loadBoard_catch e)
  | createCard_post, Fulfilled _ => Some (mret ())
  | createCard_post, Rejected e => Some (createCard_catch e)
  | updateCard_put, Fulfilled _ => Some updateCard_then
  | updateCard_put, Rejected e => Some (updateCard_catch e)
  | deleteCard_delete, Fulfilled _ => Some deleteCard_then
  | deleteCard_delete, Rejected e => Some (deleteCard_catch e)
  | onDragEnd_post, Fulfilled _ => Some (mret ())
  | onDragEnd_post, Rejected e => Some (onDragEnd_catch e)
  | loadComments_get inst, Fulfilled (Comments cs) => Some (loadComments_then inst cs)
  | loadComments_get inst, Rejected e => Some (loadComments_catch e)
  | addComment_post inst c, Fulfilled _ => Some (addComment_then inst c)
  | addComment_post inst c, Rejected e => Some (addComment_catch e)
  | _, _ => None
  end.

(** What the environment and the user can do. *)
Inductive event :=
| WsOpen (s : nat)
| WsMessage (s : nat) (data : string)
| WsError (s : nat)
| WsClose (s : nat)
| TimerFired (t : nat)
| Response (id : nat) (r : reply)
| ClickAddCard (column : nat) (answer : option string)
| ClickCard (column position : nat)
| DragEnd (result : DropResult)
| TypeTitle (s : string)
| TypeDescription (s : string)
| SelectPriority (s : string)
| TypeComment (s : string)
| ClickSave
| ClickDelete (confirmed : bool)
| ClickPost
| ClickClose.

Definition set_state (s : nat) (st : readyState) (w : world) : world :=
  set_sockets (alter (λ sock, {| state := st; wired := wired sock |}) s (sockets w)) w.

(** The handler an event reaches, and what the event itself changes (the
    socket's state, the timer or request that is consumed); [None] when the
    event cannot happen in [w]. *)
Definition dispatch (w : world) (e : event) : option (world * M unit) :=
  match e with
  | WsOpen s =>
      sock ← sockets w !! s;
      guard (state sock = CONNECTING);;
      Some (set_state s OPEN w, if wired sock then onopen else mret ())
  | WsMessage s data =>
      sock ← sockets w !! s;
      guard (state sock = OPEN);;
      Some (w, if wired sock then onmessage data else mret ())
  | WsError s =>
      sock ← sockets w !! s;
      guard (state sock ≠ CLOSED);;
      Some (w, if wired sock then onerror else mret ())
  | WsClose s =>
      sock ← sockets w !! s;
      guard (state sock ≠ CLOSED);;
      Some (set_state s CLOSED w, if wired sock then onclose else mret ())
  | TimerFired t =>
      tm ← timers w !! t;
      Some (set_timers (delete t (timers w)) (scheduled w) w,
            match action tm with Reconnect => reconnect end)
  | Response id r =>
      k ← pending w !! id;
      h ← resume k r;
      Some (set_pending (delete id (pending w)) w, h)
  | ClickAddCard column answer =>
      b ← board w;
      col ← columns b !! column;
      Some (w, createCard (column_id col) answer)
  | ClickCard column position =>
      b ← board w;
      col ← columns b !! column;
      c ← cards col !! position;
      match modal w with
      | None => Some (w, openCardModal c)
      | Some _ => None
      end
  | DragEnd result =>
      b ← board w;
      Some (w, onDragEnd result)
  | TypeTitle s =>
      m ← modal w; Some (w, update_modal (instance m) (set_title (VStr s)))
  | TypeDescription s =>
      m ← modal w; Some (w, update_modal (instance m) (set_description (VStr s)))
  | SelectPriority s =>
      m ← modal w; Some (w, update_modal (instance m) (set_priority (VStr s)))
  | TypeComment s =>
      m ← modal w; Some (w, setNewComment (instance m) s)
  | ClickSave =>
      m ← modal w; Some (w, handleSave m)
  | ClickDelete confirmed =>
      m ← modal w; Some (w, deleteCard (JS.get (card m) "id") confirmed)
  | ClickPost =>
      m ← modal w; Some (w, addComment m (username w))
  | ClickClose =>
      m ← modal w; Some (w, onClose)
  end.

(** A handler runs to completion; an exception it lets escape is reported
    by the runtime; then React renders. *)
Definition run_handler (h : M unit) (w : world) : world :=
  let '(r, w1) := h w in
  let w2 := match r with
            | Done _ => w1
            | Thrown e => set_uncaught (uncaught w1 ++ [e]) w1
            end in
  (render w2).2.

Definition step (w : world) (e : event) : option world :=
  '(w', h) ← dispatch w e;
  Some (run_handler h w').

Fixpoint run (w : world) (es : list event) : option world :=
  match es with
  | [] => Some w
  | e :: rest => w' ← step w e; run w' rest
  end.

Definition initial : world :=
  World None None "" false None None 0 [] ∅ 0 ∅ [] [] [].

(** The client once [Home] is mounted. *)
Definition mount (random : nat) : world :=
  run_handler (mount_effects random) initial.

End Program.

(** ** Notions used to state the properties *)

(** The request that starts a full pull of the board: [loadBoard]'s first. *)
Definition pull_request : request :=
  Request GET (API_URL +:+ "/api/boards") None.

Definition is_pull (r : request) : bool :=
  match meth r, body r with
  | GET, None => bool_decide (url r = API_URL +:+ "/api/boards")
  | _, _ => false
  end.

(** How many pulls the client has started so far. *)
Definition pulls (w : world) : nat := length (List.filter is_pull (issued w)).

(** A pull is in flight: one of [loadBoard]'s two requests is unanswered. *)
Definition reloading (w : world) : bool :=
  existsb (λ p, match p.2 with
                | loadBoard_boards | loadBoard_snapshot => true
                | _ => false
                end)
          (map_to_list (pending w)).

(** The screen shows what the state says: a modal is mounted exactly when
    [showCardModal && selectedCard].  Every world [step] produces is so. *)
Definition rendered (w : world) : Prop :=
  match showCardModal w, selectedCard w with
  | true, Some _ => is_Some (modal w)
  | _, _ => modal w = None
  end.

(** A text made of white space only (the empty text included). *)
Definition whitespace_only (s : string) : bool :=
  forallb JS.is_white_space (list_ascii_of_string s).

(** The wire message [data] announces a change of a recognized kind. *)
Definition announces (JSON_parse : string -> option value) (data : string) : bool :=
  match JSON_parse data with
  | Some message =>
      match JS.member message "type" with
      | inr type => recognized type
      | inl _ => false
      end
  | None => false
  end.

(** The socket [s] is open and carries the handlers of [Home]. *)
Definition listening (w : world) (s : nat) : Prop :=
  sockets w !! s = Some {| state := OPEN; wired := true |}.

(** The three fields a save overrides. *)
Definition overridden (k : string) : bool :=
  bool_decide (k ∈ ["title"; "description"; "priority"]).

(** A computation that leaves the board on screen as it found it. *)
Definition keeps_board {A} (h : M A) : Prop :=
  ∀ w, board (h w).2 = board w.

(** The requests of the HTTP surface, as the API documents them. *)
Definition snapshot_request (boardId : value) : request :=
  Request GET (API_URL +:+ "/api/boards/" +:+ JS.to_string boardId) None.

Definition move_request (cardId columnId : string) (position : nat) : request :=
  Request POST (API_URL +:+ "/api/cards/move")
    (Some {[ "card_id" := VStr cardId;
             "target_column_id" := VStr columnId;
             "position" := VNum (Z.of_nat position) ]}).

Definition update_request (cardId : value) (payload : obj) : request :=
  Request PUT (API_URL +:+ "/api/cards/" +:+ JS.to_string cardId) (Some payload).

Definition create_comment_request (cardId : value) (author text : string) : request :=
  Request POST (API_URL +:+ "/api/comments")
    (Some {[ "card_id" := cardId; "author" := VStr author; "text" := VStr text ]}).

Definition list_comments_request (cardId : value) : request :=
  Request GET (API_URL +:+ "/api/cards/" +:+ JS.to_string cardId +:+ "/comments") None.

(** The events of the channel's life cycle: open, error, close, and the
    reconnect timer. *)
Definition lifecycle (e : event) : bool :=
  match e with
  | WsOpen _ | WsError _ | WsClose _ | TimerFired _ => true
  | _ => false
  end.

(** The session on a card is closed: no modal is shown, none is selected. *)
Definition closed (w : world) : Prop :=
  showCardModal w = false ∧ selectedCard w = None ∧ modal w = None.

(** The state of the components: what [Home] and the modal hold. *)
Definition local_state (w : world) :=
  (board w, ws w, username w, showCardModal w, selectedCard w, modal w).

(** Which sockets carry the handlers, in the order of their creation. *)
Definition wiring (w : world) : list bool := wired <$> sockets w.

(** The event [e] is a message that announces a recognized change on a
    socket that, in [w], carries the handlers. *)
Definition delivers (JSON_parse : string -> option value) (w : world) (e : event) : bool :=
  match e with
  | WsMessage s data =>
      match wiring w !! s with
      | Some true => announces JSON_parse data
      | _ => false
      end
  | _ => false
  end.

(** A computation that starts no pull and creates no socket. *)
Definition silent {A} (h : M A) : Prop :=
  ∀ w, pulls (h w).2 = pulls w ∧ wiring (h w).2 = wiring w.

(** Request numbers are those of requests already sent: the next request
    takes a number that no waiting continuation holds. *)
Definition numbered (w : world) : Prop :=
  ∀ id, is_Some (pending w !! id) → id < length (issued w).

(** A computation that keeps the requests numbered. *)
Definition orderly {A} (h : M A) : Prop :=
  ∀ w, numbered w → numbered (h w).2.

(** ** Concrete clients, to run the program on *)

(** The wire message of an event of kind [type], an object with the one
    member [type]. *)
Definition wire_event (type : string) : string :=
  "{" +:+ JSON.quoted "type" +:+ ":" +:+ JSON.quoted type +:+ "}".

(** The client mounted, then taken through the events [es]. *)
Definition after (es : list event) : world :=
  default initial (run JSON.parse (mount 0) es).

(** The board of the specification's scenario: columns Todo, Doing and
    Done, and the card c1 in Todo. *)
Definition card_c1 : Card :=
  {[ "id" := VStr "c1"; "column_id" := VStr "Todo"; "title" := VStr "Fix bug";
     "description" := VStr "crash on start"; "priority" := VStr "medium";
     "labels" := VArr [VStr "backend"]; "assigned_to" := VStr "Guest_7" ]}.

Definition scenario : Board :=
  {| board_id := VStr "b1"; board_name := VStr "Sprint";
     columns := [ {| column_id := VStr "Todo"; column_name := VStr "Todo";
                     cards := [card_c1] |};
                  {| column_id := VStr "Doing"; column_name := VStr "Doing"; cards := [] |};
                  {| column_id := VStr "Done"; column_name := VStr "Done"; cards := [] |} ] |}.

(** The channel opens and the list of boards arrives; then the initial
    load completes with [scenario]. *)
Definition listing : list event :=
  [ WsOpen 0;
    Response 0 (Fulfilled (Boards [ {[ "id" := VStr "b1"; "name" := VStr "Sprint" ]} ])) ].

Definition loading : list event :=
  listing ++ [ Response 1 (Fulfilled (Snapshot scenario)) ].

(** The gesture of the scenario: c1 is dropped at the top of Doing. *)
Definition drop_c1_on_Doing : DropResult :=
  {| draggableId := "c1";
     source := {| droppableId := "Todo"; index := 0 |};
     destination := Some {| droppableId := "Doing"; index := 0 |} |}.

(** The same gesture, cancelled. *)
Definition drop_c1_nowhere : DropResult :=
  {| draggableId := "c1";
     source := {| droppableId := "Todo"; index := 0 |};
     destination := None |}.

(** The card c1 is opened; and then edited. *)
Definition opening : list event := loading ++ [ClickCard 0 0].

Definition editing : list event :=
  opening ++ [TypeTitle "Fix crash"; SelectPriority "high"].

(** ** More of the page: the search filter and the clean-up *)

(** [s.toLowerCase()] on the code units below 256: the letters A to Z, and
    the capital letters of Latin-1 (192 to 222, the multiplication sign 215
    apart), move 32 up. *)
Definition lower (c : ascii) : ascii :=
  let n := N_of_ascii c in
  if ((65 <=? n) && (n <=? 90) || (192 <=? n) && (n <=? 222) && negb (n =? 215))%N
  then ascii_of_N (n + 32)
  else c.

Fixpoint toLowerCase (s : string) : string :=
  match s with
  | String c rest => String (lower c) (toLowerCase rest)
  | EmptyString => EmptyString
  end.

(** [s] starts with [sub]. *)
Fixpoint starts_with (sub s : string) : bool :=
  match sub, s with
  | EmptyString, _ => true
  | String a sub', String b s' => bool_decide (a = b) && starts_with sub' s'
  | String _ _, EmptyString => false
  end.

(** [s.includes(sub)] *)
Fixpoint includes (s sub : string) : bool :=
  starts_with sub s ||
  match s with
  | String _ rest => includes rest sub
  | EmptyString => false
  end.

(** Truthiness of a value. *)
Definition truthy (v : value) : bool :=
  match v with
  | VUndefined | VNull => false
  | VBool b => b
  | VNum z => negb (z =? 0)%Z
  | VStr s => JS.truthy_string s
  | VArr _ | VObj _ => true
  end.

(** [v.toLowerCase()]: only a string has the method; on [undefined] and
    [null] the property read throws, on any other value the call does. *)
Definition toLowerCase_of (v : value) : error + string :=
  match v with
  | VStr s => inr (toLowerCase s)
  | _ => inl TypeError
  end.

(** The test of [filterCards] (page.tsx, lines 171-174), on one card:
    [card.title.toLowerCase().includes(q) ||
     (card.description && card.description.toLowerCase().includes(q))]
    as a condition, where [q] is [searchQuery.toLowerCase()]. *)
Definition search_test (searchQuery : string) (card : Card) : error + bool :=
  match toLowerCase_of (JS.get card "title") with
  | inl e => inl e
  | inr title =>
      if includes title (toLowerCase searchQuery) then inr true
      else
        let description := JS.get card "description" in
        if truthy description then
          match toLowerCase_of description with
          | inl e => inl e
          | inr text => inr (includes text (toLowerCase searchQuery))
          end
        else inr false
  end.

(** [cards.filter(test)]: the cards are tested in order, and the first
    exception ends the loop. *)
Fixpoint filter_by (test : Card -> error + bool) (cards : list Card) : error + list Card :=
  match cards with
  | [] => inr []
  | card :: rest =>
      match test card with
      | inl e => inl e
      | inr keep =>
          match filter_by test rest with
          | inl e => inl e
          | inr kept => inr (if keep then card :: kept else kept)
          end
      end
  end.

(** [filterCards] (lines 168-176), for the search text on screen. *)
Definition filterCards (searchQuery : string) (cards : list Card) : error + list Card :=
  if negb (JS.truthy_string searchQuery) then inr cards
  else filter_by (search_test searchQuery) cards.

(** [websocket.close()] on an open socket: it is closing until the close
    event comes. *)
Definition close (websocket : nat) : M unit := modify (set_state websocket CLOSING).

(** The clean-up of the first effect (lines 47-51), run when [Home]
    unmounts; [websocket] is the socket the effect created. *)
Definition cleanup (websocket : nat) : M unit :=
  readyState ← gets (λ w, state <$> sockets w !! websocket);
  if bool_decide (readyState = Some OPEN) then close websocket else mret ().

(** ** Notions for the rest of the page *)

(** The cards of a board in reading order: column after column, each from
    top to bottom. *)
Definition all_cards (cols : list Column) : list Card :=
  concat (cards <$> cols).

(** [text] contains [q], letter case apart. *)
Definition contains_ignoring_case (text q : string) : Prop :=
  ∃ before after, toLowerCase text = before +:+ toLowerCase q +:+ after.

(** A card the search can read: its title is a string, and its description
    is a string or is falsy. *)
Definition searchable (c : Card) : Prop :=
  (∃ t, JS.get c "title" = VStr t) ∧
  ((∃ d, JS.get c "description" = VStr d) ∨ truthy (JS.get c "description") = false).

(** The search text is found in the title or in the description of [c]. *)
Definition found_in (q : string) (c : Card) : Prop :=
  ∃ text, (JS.get c "title" = VStr text ∨ JS.get c "description" = VStr text) ∧
          contains_ignoring_case text q.

(** A card on which the test throws: the title is not a string, or the
    title does not hold the text and the description is a truthy value
    that is not a string. *)
Definition unreadable (q : string) (c : Card) : Prop :=
  match JS.get c "title" with
  | VStr t =>
      includes (toLowerCase t) (toLowerCase q) = false ∧
      truthy (JS.get c "description") = true ∧
      ∀ d, JS.get c "description" ≠ VStr d
  | _ => True
  end.

(** The request that creates a card in a column. *)
Definition create_card_request (columnId : value) (title author : string) : request :=
  Request POST (API_URL +:+ "/api/cards")
    (Some {[ "column_id" := columnId; "title" := VStr title;
             "description" := VStr ""; "priority" := VStr "medium";
             "labels" := VArr []; "assigned_to" := VStr author ]}).

Definition delete_request (cardId : value) : request :=
  Request DELETE (API_URL +:+ "/api/cards/" +:+ JS.to_string cardId) None.

(** The modal as it is when it mounts on [c], as its [n]th instance. *)
Definition fresh_modal (n : nat) (c : Card) : CardModal :=
  {| instance := n; card := c;
     title := JS.get c "title"; description := JS.get c "description";
     priority := JS.get c "priority"; comments := []; newComment := "" |}.

(** The two state variables of the modal agree, and the modal on screen is
    the one of the selected card. *)
Definition coherent (w : world) : Prop :=
  (showCardModal w = true ↔ is_Some (selectedCard w)) ∧
  (card <$> modal w) = (if showCardModal w then selectedCard w else None).

(** The shapes the channel goes through: the first socket alone; the first
    socket closed and the reconnection about to happen; the first socket
    closed and the socket of the reconnection, without handlers. *)
Definition channel_shape (w : world) : Prop :=
  (∃ st, st ≠ CLOSED ∧ sockets w = [ {| state := st; wired := true |} ] ∧
         timers w = ∅ ∧ scheduled w = 0) ∨
  (sockets w = [ {| state := CLOSED; wired := true |} ] ∧
   timers w = {[ 0 := {| delay := 3000; action := Reconnect |} ]} ∧ scheduled w = 1) ∨
  (∃ st, sockets w = [ {| state := CLOSED; wired := true |};
                       {| state := st; wired := false |} ] ∧
         timers w = ∅ ∧ scheduled w = 1).

(** The first socket has closed. *)
Definition disconnected (w : world) : Prop :=
  ∃ rest, sockets w = {| state := CLOSED; wired := true |} :: rest.

(** ** More concrete runs *)

(** A second card, without description, and a card that lost its title. *)
Definition card_c2 : Card :=
  {[ "id" := VStr "c2"; "column_id" := VStr "Todo"; "title" := VStr "Debug the parser";
     "priority" := VStr "low" ]}.

Definition card_untitled : Card :=
  {[ "id" := VStr "c3"; "column_id" := VStr "Todo"; "description" := VStr "no title" ]}.

(** The board after another user has deleted c1. *)
Definition scenario_without_c1 : Board :=
  {| board_id := VStr "b1"; board_name := VStr "Sprint";
     columns := [ {| column_id := VStr "Todo"; column_name := VStr "Todo"; cards := [] |} ] |}.

(** While c1 is being edited, the deletion is announced and the pull it
    starts completes. *)
Definition deleted_meanwhile : list event :=
  editing ++
  [ WsMessage 0 (wire_event "card_deleted");
    Response 3 (Fulfilled (Boards [ {[ "id" := VStr "b1" ]} ]));
    Response 4 (Fulfilled (Snapshot scenario_without_c1)) ].

(** The card is opened, closed before its comments arrive, and opened
    again. *)
Definition reopened : list event := opening ++ [ClickClose; ClickCard 0 0].

(** The connection is lost and the reconnection has taken place. *)
Definition reconnected : list event :=
  loading ++ [WsClose 0; TimerFired 0; WsOpen 1].

(** A comment is typed and posted. *)
Definition commenting : list event := opening ++ [TypeComment "ship it"; ClickPost].

(** ** Basic facts *)

Lemma trim_start_whitespace_only s :
  JS.trim_start s = EmptyString ↔ whitespace_only s = true.
Proof.
  unfold whitespace_only. induction s as [|c s IH]; simpl; [done|].
  destruct (JS.is_white_space c); simpl; [exact IH|]. split; discriminate.
Qed.

Lemma trim_end_nonempty c s :
  JS.is_white_space c = false → JS.trim_end (String c s) ≠ EmptyString.
Proof. intros Hc. simpl. destruct (JS.trim_end s); [rewrite Hc|]; discriminate. Qed.

Lemma trim_start_head s c rest :
  JS.trim_start s = String c rest → JS.is_white_space c = false.
Proof.
  induction s as [|a s IH]; simpl; [discriminate|].
  destruct (JS.is_white_space a) eqn:Ha; [exact IH|]. congruence.
Qed.

(** [trim] leaves nothing exactly of the texts made of white space. *)
Lemma trim_empty_iff s :
  JS.trim s = EmptyString ↔ whitespace_only s = true.
Proof.
  rewrite <- trim_start_whitespace_only. unfold JS.trim.
  destruct (JS.trim_start s) as [|c rest] eqn:E; [done|].
  split; [|discriminate]. intros H.
  exfalso. eapply trim_end_nonempty; [|exact H]. eapply trim_start_head, E.
Qed.

Lemma truthy_trim s :
  JS.truthy_string (JS.trim s) = negb (whitespace_only s).
Proof.
  destruct (whitespace_only s) eqn:W.
  - apply trim_empty_iff in W. by rewrite W.
  - destruct (JS.trim s) eqn:E; [|done].
    apply trim_empty_iff in E. congruence.
Qed.

(** Reading a property of a merged object. *)
Lemma get_spread target source k :
  JS.get (JS.spread target source) k =
  match source !! k with Some v => v | None => JS.get target k end.
Proof.
  unfold JS.get, JS.spread. rewrite lookup_union.
  destruct (source !! k), (target !! k); done.
Qed.

Lemma findCard_in_present cols cardId c :
  findCard_in cols cardId = Some c →
  ∃ column, column ∈ cols ∧ c ∈ cards column ∧
            JS.strict_eq (JS.get c "id") cardId = true.
Proof.
  induction cols as [|column rest IH]; simpl; [discriminate|].
  unfold find_card. destruct (List.find _ (cards column)) as [c'|] eqn:F.
  - intros [= ->]. apply find_some in F as [Hin Hid].
    exists column. split; [left|]. split; [by apply list_elem_of_In|done].
  - intros H. destruct (IH H) as (col & ? & ? & ?).
    exists col. split; [by right|done].
Qed.

Lemma findCard_in_complete cols cardId column c :
  column ∈ cols → c ∈ cards column →
  JS.strict_eq (JS.get c "id") cardId = true →
  is_Some (findCard_in cols cardId).
Proof.
  intros Hcol Hc Hid. induction cols as [|first rest IH]; simpl.
  - by apply elem_of_nil in Hcol.
  - destruct (find_card cardId first) eqn:F; [by eexists|].
    apply elem_of_cons in Hcol as [->|Hcol]; [|by apply IH].
    exfalso. unfold find_card in F. apply list_elem_of_In in Hc.
    pose proof (find_none _ _ F _ Hc) as Hn. simpl in Hn. congruence.
Qed.

(** On a screen that is up to date, rendering changes nothing. *)
Lemma render_rendered w : rendered w → render w = (Done (), w).
Proof.
  unfold rendered, render. cbv [mbind M_bind gets id mret M_ret modify].
  destruct (showCardModal w) eqn:S, (selectedCard w) eqn:C; simpl;
    rewrite ?S, ?C; simpl.
  - intros [m ->]. done.
  - intros E. destruct w; simpl in *; by subst.
  - intros E. destruct w; simpl in *; by subst.
  - intros E. destruct w; simpl in *; by subst.
Qed.

Lemma run_handler_done h w w1 :
  h w = (Done (), w1) → rendered w1 → run_handler h w = w1.
Proof. intros Hh Hr. unfold run_handler. rewrite Hh. by rewrite render_rendered. Qed.

Lemma run_handler_thrown h w w1 e :
  h w = (Thrown e, w1) → rendered w1 →
  run_handler h w = set_uncaught (uncaught w1 ++ [e]) w1.
Proof. intros Hh Hr. unfold run_handler. rewrite Hh. by rewrite render_rendered. Qed.

(** [render] brings the screen up to date, whatever the state. *)
Lemma rendered_render w : rendered (render w).2.
Proof.
  destruct w as [b s u shown sel mo n so ti sc pe iss co un].
  unfold rendered, render. cbv [mbind M_bind gets id mret M_ret modify]. simpl.
  destruct shown, sel as [c|]; simpl; try done.
  destruct mo; simpl; by eexists.
Qed.

Lemma step_rendered JSON_parse w e w' :
  step JSON_parse w e = Some w' → rendered w'.
Proof.
  unfold step. destruct (dispatch JSON_parse w e) as [[w1 h]|]; simpl; [|discriminate].
  intros [= <-]. unfold run_handler. destruct (h w1) as [r w2].
  apply rendered_render.
Qed.

Lemma mount_rendered r : rendered (mount r).
Proof. unfold mount, run_handler. destruct (mount_effects r initial). apply rendered_render. Qed.

Lemma run_rendered JSON_parse es w w' :
  rendered w → run JSON_parse w es = Some w' → rendered w'.
Proof.
  revert w. induction es as [|e es IH]; simpl; intros w Hr.
  - by intros [= <-].
  - destruct (step JSON_parse w e) as [w1|] eqn:E; simpl; [|discriminate].
    apply IH. eapply step_rendered, E.
Qed.

(** What [loadBoard] does, whatever the state of the client. *)
Lemma loadBoard_run w :
  loadBoard w =
  (Done (), set_issued (issued w ++ [pull_request])
              (set_pending (<[length (issued w) := loadBoard_boards]> (pending w)) w)).
Proof. reflexivity. Qed.

Lemma pulls_app w r :
  length (List.filter is_pull (issued w ++ [r])) = pulls w + (if is_pull r then 1 else 0).
Proof.
  unfold pulls. rewrite List.filter_app, length_app. simpl.
  destruct (is_pull r); simpl; lia.
Qed.

(** ** Properties of the synchronisation logic *)

Section Sync.

Variable JSON_parse : string -> option value.

(** *** Messages *)

(** A message that announces a recognized change: the handler logs it and
    calls [loadBoard], in whatever state the client is. *)
Lemma message_announced w s data :
  rendered w → listening w s → announces JSON_parse data = true →
  step JSON_parse w (WsMessage s data) =
  Some (set_issued (issued w ++ [pull_request])
          (set_pending (<[length (issued w) := loadBoard_boards]> (pending w))
             (set_console (console w ++ [(LOG, "WebSocket message:")]) w))).
Proof.
  intros Hr Hs Ha. unfold step, dispatch. rewrite Hs. simpl.
  f_equal. apply run_handler_done; [|exact Hr].
  unfold announces in Ha. unfold onmessage.
  destruct (JSON_parse data) as [message|]; [|discriminate].
  cbv [mbind M_bind mret M_ret]. unfold handleWebSocketMessage.
  cbv [mbind M_bind mret M_ret console_log modify lift].
  destruct (JS.member message "type") as [e|type]; [discriminate|].
  cbv [mret M_ret]. rewrite Ha. reflexivity.
Qed.

(** X2: any other message (malformed, without a type, of an unknown
    type) starts no pull: it sends nothing and leaves the requests in
    flight, the sockets and the board alone. *)
Lemma message_not_announced w s data :
  rendered w → listening w s → announces JSON_parse data = false →
  ∃ w', step JSON_parse w (WsMessage s data) = Some w' ∧
        issued w' = issued w ∧ pending w' = pending w ∧
        sockets w' = sockets w ∧ board w' = board w.
Proof.
  intros Hr Hs Ha. unfold step, dispatch. rewrite Hs. simpl.
  eexists. split; [reflexivity|].
  unfold announces in Ha. unfold run_handler, onmessage.
  destruct (JSON_parse data) as [message|].
  - cbv [mbind M_bind mret M_ret]. unfold handleWebSocketMessage.
    cbv [mbind M_bind mret M_ret console_log modify lift].
    destruct (JS.member message "type") as [e|type].
    + cbv [throw]. rewrite render_rendered by exact Hr. done.
    + cbv [mret M_ret]. rewrite Ha. cbv [mret M_ret].
      rewrite render_rendered by exact Hr. done.
  - cbv [mbind M_bind throw]. rewrite render_rendered by exact Hr. done.
Qed.

End Sync.

(** ** What can change the board *)

(** Unfolds a handler down to the state it produces. *)
Ltac run_monad :=
  cbv [mbind M_bind mret M_ret throw gets modify try_catch lift
       console_log console_error await new_WebSocket setTimeout
       setBoard setWs setUsername setShowCardModal setSelectedCard
       update_modal setComments setNewComment id].

Ltac unfold_handlers :=
  cbv [loadBoard loadBoard_catch loadBoard_then_boards loadBoard_then_snapshot
       handleWebSocketMessage onopen onmessage onerror onclose reconnect
       createCard createCard_catch findCard updateCard updateCard_catch
       updateCard_then deleteCard deleteCard_catch deleteCard_then
       onDragEnd onDragEnd_catch openCardModal onClose
       loadComments loadComments_catch loadComments_then
       addComment addComment_catch addComment_then handleSave].

Ltac frame :=
  intros w; cbv [render mount_CardModal]; unfold_handlers; run_monad; simpl;
  repeat case_match; simplify_eq/=; congruence.

(** Runs a handler and the rendering that follows, on a screen that
    [Hr] says is up to date and that the handler leaves so. *)
Ltac run_handler_with Hr :=
  unfold run_handler; unfold_handlers; run_monad; simpl;
  rewrite ?render_rendered by exact Hr; simpl.

Section Frame.

Variable JSON_parse : string -> option value.

Lemma keeps_board_ret : keeps_board (mret ()).
Proof. frame. Qed.
Lemma keeps_board_onopen : keeps_board onopen.
Proof. frame. Qed.
Lemma keeps_board_onmessage data : keeps_board (onmessage JSON_parse data).
Proof. frame. Qed.
Lemma keeps_board_onerror : keeps_board onerror.
Proof. frame. Qed.
Lemma keeps_board_onclose : keeps_board onclose.
Proof. frame. Qed.
Lemma keeps_board_reconnect : keeps_board reconnect.
Proof. frame. Qed.
Lemma keeps_board_createCard columnId answer : keeps_board (createCard columnId answer).
Proof. frame. Qed.
Lemma keeps_board_openCardModal c : keeps_board (openCardModal c).
Proof. frame. Qed.
Lemma keeps_board_onDragEnd result : keeps_board (onDragEnd result).
Proof. frame. Qed.
Lemma keeps_board_update_modal inst f : keeps_board (update_modal inst f).
Proof. frame. Qed.
Lemma keeps_board_handleSave m : keeps_board (handleSave m).
Proof. frame. Qed.
Lemma keeps_board_deleteCard cardId confirmed : keeps_board (deleteCard cardId confirmed).
Proof. frame. Qed.
Lemma keeps_board_addComment m u : keeps_board (addComment m u).
Proof. frame. Qed.
Lemma keeps_board_onClose : keeps_board onClose.
Proof. frame. Qed.
Lemma keeps_board_render : keeps_board render.
Proof. frame. Qed.

(** A response wakes the continuation registered for its request. *)
Lemma step_Response w id k r h :
  pending w !! id = Some k → resume k r = Some h →
  step JSON_parse w (Response id r) =
  Some (run_handler h (set_pending (delete id (pending w)) w)).
Proof. intros Hp Hh. unfold step, dispatch. rewrite Hp. simpl. by rewrite Hh. Qed.

(** Of the code that follows an [await], only the end of a pull touches the
    board. *)
Lemma keeps_board_resume k r h :
  resume k r = Some h →
  keeps_board h ∨ ∃ b, k = loadBoard_snapshot ∧ r = Fulfilled (Snapshot b).
Proof.
  destruct k, r as [[]|]; simpl; intros [= <-]; try (left; frame).
  right. eauto.
Qed.

Create HintDb frame.

#[local] Hint Resolve keeps_board_ret keeps_board_onopen keeps_board_onmessage
  keeps_board_onerror keeps_board_onclose keeps_board_reconnect
  keeps_board_createCard keeps_board_openCardModal keeps_board_onDragEnd
  keeps_board_update_modal keeps_board_handleSave keeps_board_deleteCard
  keeps_board_addComment keeps_board_onClose : frame.

Lemma run_handler_board h w : board (run_handler h w) = board (h w).2.
Proof.
  unfold run_handler. destruct (h w) as [[a|e] w1]; by rewrite keeps_board_render.
Qed.

(** An event that is not a response reaches a handler that keeps the
    board, and does not touch the board itself. *)
Lemma dispatch_keeps_board w e w1 h :
  dispatch JSON_parse w e = Some (w1, h) →
  (∀ id r, e ≠ Response id r) →
  board w1 = board w ∧ keeps_board h.
Proof.
  intros D Hne. destruct e; simpl in D;
    repeat (match type of D with
            | context [match ?x with _ => _ end] => destruct x eqn:?; simpl in D
            | (_ ≫= _) = Some _ => apply bind_Some in D as (? & ? & D); simpl in D
            | (guard _;; _) = Some _ => apply bind_Some in D as (? & _ & D); simpl in D
            | None = Some _ => discriminate D
            end);
    try (injection D as <- <-; split; [reflexivity|auto with frame]).
  - destruct (Hne id r eq_refl).
  - apply keeps_board_update_modal.
Qed.

(** X1: the board on screen changes only when the second request of a
    pull is answered: it becomes the snapshot received.  No other handler
    and no other response replaces it. *)
Lemma board_changes_only_by_pull w e w' :
  step JSON_parse w e = Some w' →
  board w' = board w ∨
  ∃ id b, e = Response id (Fulfilled (Snapshot b)) ∧
          pending w !! id = Some loadBoard_snapshot ∧ board w' = Some b.
Proof.
  unfold step. destruct (dispatch JSON_parse w e) as [[w1 h]|] eqn:D; simpl; [|discriminate].
  intros [= <-]. rewrite run_handler_board.
  assert ((∃ id r, e = Response id r) ∨ ∀ id r, e ≠ Response id r)
    as [(id & r & ->)|Hne] by (destruct e; eauto).
  - simpl in D. destruct (pending w !! id) as [k|] eqn:P; simpl in D; [|discriminate].
    destruct (resume k r) as [h'|] eqn:R; simpl in D; [|discriminate].
    injection D as <- <-.
    destruct (keeps_board_resume _ _ _ R) as [K|(b & -> & ->)].
    + left. by rewrite K.
    + right. exists id, b. simpl in R. injection R as <-. done.
  - destruct (dispatch_keeps_board _ _ _ _ D Hne) as [Hb K].
    left. by rewrite K.
Qed.

End Frame.

(** ** Moving a card *)

Section Move.

Variable JSON_parse : string -> option value.

(** What a drag end does on an up-to-date screen. *)
Lemma step_DragEnd w result :
  rendered w → is_Some (board w) →
  step JSON_parse w (DragEnd result) =
  Some match destination result with
       | Some d =>
           set_issued
             (issued w ++ [move_request (draggableId result) (droppableId d) (index d)])
             (set_pending (<[length (issued w) := onDragEnd_post]> (pending w)) w)
       | None => w
       end.
Proof.
  intros Hr [b Hb]. unfold step, dispatch. rewrite Hb. simpl. f_equal.
  unfold onDragEnd. destruct (destination result) as [d|].
  - by apply run_handler_done.
  - by apply run_handler_done.
Qed.

(** C5: the move operation leaves the snapshot as it is, when the gesture
    ends and when its request is answered, by a success or by a failure;
    the snapshot changes only at the end of a pull
    ([board_changes_only_by_pull]). *)
Theorem move_leaves_snapshot (w : world) (result : DropResult) :
  rendered w → is_Some (board w) →
  ∃ w1, step JSON_parse w (DragEnd result) = Some w1 ∧
        board w1 = board w ∧
        ∀ d, destination result = Some d →
             ∀ r, ∃ w2, step JSON_parse w1 (Response (length (issued w)) r) = Some w2 ∧
                        board w2 = board w.
Proof.
  intros Hr Hb. eexists. split; [by apply step_DragEnd|].
  split; [by destruct (destination result)|].
  intros d -> r.
  assert (∃ h, resume onDragEnd_post r = Some h) as [h Hh]
    by (destruct r; simpl; eauto).
  eexists. split.
  { eapply step_Response; [apply lookup_insert_eq|exact Hh]. }
  rewrite run_handler_board.
  destruct (keeps_board_resume _ _ _ Hh) as [K|(b & ? & _)]; [|discriminate].
  by rewrite K.
Qed.

(** C6: a drag end with a destination sends exactly one request, the move
    of the dragged card to the destination column and position; a drag end
    without destination sends nothing. *)
Theorem drag_end_sends_one_move (w : world) (result : DropResult) :
  rendered w → is_Some (board w) →
  ∃ w', step JSON_parse w (DragEnd result) = Some w' ∧
        issued w' = (issued w ++
          match destination result with
          | Some d => [move_request (draggableId result) (droppableId d) (index d)]
          | None => []
          end)%list.
Proof.
  intros Hr Hb. eexists. split; [by apply step_DragEnd|].
  destruct (destination result); simpl; [done|by rewrite app_nil_r].
Qed.

End Move.

(** ** The channel: disconnection and reconnection *)

Section Channel.

Variable JSON_parse : string -> option value.

(** X3: when a socket that carries the handlers closes, the client logs
    the disconnection and schedules one timer, of 3000 ms, for the
    reconnection; nothing else changes. *)
Lemma step_WsClose_wired w s sock :
  rendered w → sockets w !! s = Some sock → state sock ≠ CLOSED → wired sock = true →
  step JSON_parse w (WsClose s) =
  Some (set_timers (<[scheduled w := {| delay := 3000; action := Reconnect |}]> (timers w))
                   (S (scheduled w))
          (set_console (console w ++ [(LOG, "WebSocket disconnected")])
             (set_state s CLOSED w))).
Proof.
  intros Hr Hs Hst Hw. unfold step, dispatch. rewrite Hs. simpl.
  rewrite option_guard_True by done. simpl. rewrite Hw.
  f_equal. by run_handler_with Hr.
Qed.

(** The reconnection: a new socket, to which no handler is assigned. *)
Lemma step_TimerFired w t tm :
  rendered w → timers w !! t = Some tm →
  step JSON_parse w (TimerFired t) =
  Some (set_ws (Some (length (sockets w)))
          (set_sockets (sockets w ++ [{| state := CONNECTING; wired := false |}])
             (set_timers (delete t (timers w)) (scheduled w) w))).
Proof.
  intros Hr Ht. unfold step, dispatch. rewrite Ht. simpl. destruct (action tm).
  f_equal. by run_handler_with Hr.
Qed.

(** A socket without handlers: its messages reach nobody. *)
Lemma step_WsMessage_unwired w s sock data :
  rendered w → sockets w !! s = Some sock → state sock = OPEN → wired sock = false →
  step JSON_parse w (WsMessage s data) = Some w.
Proof.
  intros Hr Hs Hst Hw. unfold step, dispatch. rewrite Hs. simpl.
  rewrite option_guard_True by done. simpl. rewrite Hw.
  f_equal. by run_handler_with Hr.
Qed.

(** A socket without handlers: its closing schedules nothing. *)
Lemma step_WsClose_unwired w s sock :
  rendered w → sockets w !! s = Some sock → state sock ≠ CLOSED → wired sock = false →
  step JSON_parse w (WsClose s) = Some (set_state s CLOSED w).
Proof.
  intros Hr Hs Hst Hw. unfold step, dispatch. rewrite Hs. simpl.
  rewrite option_guard_True by done. simpl. rewrite Hw.
  f_equal. by run_handler_with Hr.
Qed.

(** The events of the channel's life cycle send no request and leave the
    snapshot alone. *)
Lemma lifecycle_quiet w e w' :
  rendered w → lifecycle e = true → step JSON_parse w e = Some w' →
  issued w' = issued w ∧ pending w' = pending w ∧ board w' = board w.
Proof.
  intros Hr He St. unfold step, dispatch in St.
  destruct e; try discriminate; simpl in St.
  - destruct (sockets w !! s) as [sock|]; simpl in St; [|discriminate].
    case_guard; simpl in St; [|discriminate]. injection St as <-.
    destruct (wired sock); by run_handler_with Hr.
  - destruct (sockets w !! s) as [sock|]; simpl in St; [|discriminate].
    case_guard; simpl in St; [|discriminate]. injection St as <-.
    destruct (wired sock); by run_handler_with Hr.
  - destruct (sockets w !! s) as [sock|]; simpl in St; [|discriminate].
    case_guard; simpl in St; [|discriminate]. injection St as <-.
    destruct (wired sock); by run_handler_with Hr.
  - destruct (timers w !! t) as [[d []]|]; simpl in St; [|discriminate].
    injection St as <-. by run_handler_with Hr.
Qed.

Lemma lifecycle_run_quiet es w w' :
  rendered w → forallb lifecycle es = true → run JSON_parse w es = Some w' →
  issued w' = issued w ∧ pending w' = pending w ∧ board w' = board w.
Proof.
  revert w. induction es as [|e es IH]; simpl; intros w Hr He Hrun.
  - by injection Hrun as <-.
  - apply andb_prop in He as [He Hes].
    destruct (step JSON_parse w e) as [w1|] eqn:St; simpl in Hrun; [|discriminate].
    destruct (lifecycle_quiet _ _ _ Hr He St) as (Hi & Hp & Hb).
    destruct (IH w1 (step_rendered _ _ _ _ St) Hes Hrun) as (Hi' & Hp' & Hb').
    by rewrite Hi', Hp', Hb'.
Qed.

(** C2 (amended): when the channel disconnects, the reconnect timer fires
    and the new channel opens, no snapshot pull is performed: no request
    is sent at all and the snapshot stays, whatever was missed meanwhile. *)
Theorem reconnect_pulls_nothing (w w' : world) (s t s' : nat) :
  rendered w →
  run JSON_parse w [WsClose s; TimerFired t; WsOpen s'] = Some w' →
  pulls w' = pulls w ∧ issued w' = issued w ∧ pending w' = pending w ∧
  board w' = board w.
Proof.
  intros Hr Hrun.
  destruct (lifecycle_run_quiet [WsClose s; TimerFired t; WsOpen s'] _ _ Hr eq_refl Hrun)
    as (Hi & Hp & Hb).
  unfold pulls. by rewrite Hi.
Qed.

(** A wire message that [JSON.parse] rejects: the SyntaxError leaves
    [onmessage], which has logged nothing. *)
Lemma onmessage_malformed data w :
  JSON_parse data = None → onmessage JSON_parse data w = (Thrown SyntaxError, w).
Proof. intros E. unfold onmessage. by rewrite E. Qed.

Lemma step_WsMessage_malformed w s data :
  rendered w → listening w s → JSON_parse data = None →
  step JSON_parse w (WsMessage s data) =
  Some (set_uncaught (uncaught w ++ [SyntaxError]) w).
Proof.
  intros Hr Hs E. unfold step, dispatch. rewrite Hs. simpl.
  f_equal. apply run_handler_thrown; [by apply onmessage_malformed|exact Hr].
Qed.

End Channel.

(** ** The card session: comments and saving *)

Section Session.

Variable JSON_parse : string -> option value.

Lemma rendered_modal w m :
  rendered w → modal w = Some m →
  showCardModal w = true ∧ is_Some (selectedCard w).
Proof.
  unfold rendered. intros Hr Hm.
  destruct (showCardModal w), (selectedCard w); try congruence. eauto.
Qed.

(** What posting a comment does on an up-to-date screen. *)
Lemma step_ClickPost w m :
  rendered w → modal w = Some m →
  step JSON_parse w ClickPost =
  Some (if whitespace_only (newComment m) then w
        else set_issued
               (issued w ++ [create_comment_request (JS.get (card m) "id") (username w)
                               (newComment m)])
               (set_pending
                  (<[length (issued w) := addComment_post (instance m) (card m)]> (pending w))
                  w)).
Proof.
  intros Hr Hm. unfold step, dispatch. rewrite Hm. simpl. f_equal.
  unfold addComment. rewrite truthy_trim, negb_involutive.
  destruct (whitespace_only (newComment m)); by run_handler_with Hr.
Qed.

(** C7: posting a comment whose text is empty or white space only is a
    no-op: nothing is sent and nothing changes, the comment list included.
    Any other text is submitted as one create-comment request, with the
    text as typed; and when that request succeeds, the comment list is
    fetched again. *)
Theorem addComment_blank_or_submit (w : world) (m : CardModal) :
  rendered w → modal w = Some m →
  ∃ w', step JSON_parse w ClickPost = Some w' ∧
    if whitespace_only (newComment m) then w' = w
    else
      issued w' =
        (issued w ++ [create_comment_request (JS.get (card m) "id") (username w)
                        (newComment m)])%list ∧
      modal w' = Some m ∧
      ∀ d, ∃ w'', step JSON_parse w' (Response (length (issued w)) (Fulfilled d)) = Some w'' ∧
                  issued w'' =
                    (issued w' ++ [list_comments_request (JS.get (card m) "id")])%list.
Proof.
  intros Hr Hm. destruct (rendered_modal _ _ Hr Hm) as [Hshow [sel Hsel]].
  eexists. split; [by apply step_ClickPost|].
  destruct (whitespace_only (newComment m)); [done|].
  split; [reflexivity|]. split; [exact Hm|].
  intros d. eexists. split.
  { eapply step_Response; [apply lookup_insert_eq|reflexivity]. }
  unfold run_handler. unfold_handlers. run_monad. simpl.
  rewrite Hm, bool_decide_eq_true_2 by done. simpl.
  rewrite render_rendered; [done|].
  unfold rendered. simpl. rewrite Hshow, Hsel. by eexists.
Qed.

(** The body of an update: the card of the snapshot, under the overrides. *)
Lemma get_update_payload cur updates k :
  JS.get (update_payload cur updates) k =
  match updates !! k with Some v => v | None => JS.get cur k end.
Proof.
  unfold update_payload. rewrite !get_spread.
  destruct (updates !! k); [done|].
  destruct (cur !! k) as [v|] eqn:E; [by unfold JS.get; rewrite E|].
  unfold JS.get at 1 3. rewrite E. simpl.
  destruct (decide (k = "column_id")) as [->|Hk].
  - rewrite lookup_singleton_eq. unfold JS.get. by rewrite E.
  - by rewrite lookup_singleton_ne.
Qed.

(** What saving does when the snapshot holds the card under its id. *)
Lemma step_ClickSave w m b cur :
  rendered w → modal w = Some m → board w = Some b →
  findCard_in (columns b) (JS.get (card m) "id") = Some cur →
  step JSON_parse w ClickSave =
  Some (set_issued
          (issued w ++
           [update_request (JS.get (card m) "id")
              (update_payload cur
                 {[ "title" := title m; "description" := description m;
                    "priority" := priority m ]})])
          (set_pending (<[length (issued w) := updateCard_put]> (pending w)) w)).
Proof.
  intros Hr Hm Hb Hc. unfold step, dispatch. rewrite Hm. simpl. f_equal.
  unfold run_handler. unfold_handlers. run_monad. simpl.
  rewrite Hb. simpl. rewrite Hc. simpl. by rewrite render_rendered.
Qed.

(** C8: saving sends one update request for the card, whose payload is
    the card as the snapshot holds it with the title, the description and
    the priority of the edit buffer written over it, every other field
    being carried through; and the session closes when the request
    succeeds, and stays open when it fails. *)
Theorem save_sends_merged_card (w : world) (m : CardModal) (b : Board) (cur : Card) :
  rendered w → modal w = Some m → board w = Some b →
  findCard_in (columns b) (JS.get (card m) "id") = Some cur →
  ∃ w' payload,
    step JSON_parse w ClickSave = Some w' ∧
    issued w' = (issued w ++ [update_request (JS.get (card m) "id") payload])%list ∧
    JS.get payload "title" = title m ∧
    JS.get payload "description" = description m ∧
    JS.get payload "priority" = priority m ∧
    (∀ k, overridden k = false → JS.get payload k = JS.get cur k) ∧
    modal w' = Some m ∧
    ∀ r, ∃ w'', step JSON_parse w' (Response (length (issued w)) r) = Some w'' ∧
                match r with
                | Fulfilled _ => closed w''
                | Rejected _ => modal w'' = Some m ∧ showCardModal w'' = true ∧
                                selectedCard w'' = selectedCard w
                end.
Proof.
  intros Hr Hm Hb Hc. destruct (rendered_modal _ _ Hr Hm) as [Hshow [sel Hsel]].
  eexists _, _. split; [by eapply step_ClickSave|].
  split; [reflexivity|].
  split; [by rewrite get_update_payload|].
  split; [by rewrite get_update_payload|].
  split; [by rewrite get_update_payload|].
  split; [|split; [exact Hm|]].
  - intros k Hk. rewrite get_update_payload.
    unfold overridden in Hk. apply bool_decide_eq_false in Hk.
    rewrite !lookup_insert_ne, lookup_singleton_ne; [done|..];
      intros <-; apply Hk; set_solver.
  - intros r.
    assert (∃ h, resume updateCard_put r = Some h) as [h Hh]
      by (destruct r; simpl; eauto).
    eexists. split.
    { eapply step_Response; [apply lookup_insert_eq|exact Hh]. }
    destruct r as [d|e]; simpl in Hh; injection Hh as <-.
    + unfold run_handler. unfold_handlers. run_monad. cbv [render]. run_monad.
      simpl. done.
    + unfold run_handler. unfold_handlers. run_monad. simpl.
      rewrite render_rendered by exact Hr. simpl. done.
Qed.

End Session.

(** ** Loading the board, and failures *)

Section Loads.

Variable JSON_parse : string -> option value.

(** Every continuation has a [catch]: a rejected request resumes it. *)
Lemma resume_Rejected k e :
  ∃ msg, resume k (Rejected e) = Some (console_error msg).
Proof. destruct k; simpl; eauto. Qed.

(** C9: a failed request changes nothing in the client but the console:
    the catch block logs one error, the state of the components (the
    snapshot included) is as before, nothing is sent, nothing escapes; and
    the next recognized event starts a pull as usual. *)
Theorem failure_changes_nothing (w : world) (id : nat) (k : cont) (e : error) :
  rendered w → pending w !! id = Some k →
  ∃ w' msg,
    step JSON_parse w (Response id (Rejected e)) = Some w' ∧
    w' = set_console (console w ++ [(ERROR, msg)])
           (set_pending (delete id (pending w)) w) ∧
    local_state w' = local_state w ∧
    issued w' = issued w ∧
    uncaught w' = uncaught w ∧
    ∀ s data, listening w s → announces JSON_parse data = true →
      ∃ w'', step JSON_parse w' (WsMessage s data) = Some w'' ∧
             issued w'' = (issued w' ++ [pull_request])%list ∧
             pending w'' !! length (issued w') = Some loadBoard_boards.
Proof.
  intros Hr Hp. destruct (resume_Rejected k e) as [msg Hmsg].
  exists (set_console (console w ++ [(ERROR, msg)])
            (set_pending (delete id (pending w)) w)), msg.
  split.
  { erewrite step_Response by eassumption. f_equal.
    apply run_handler_done; [reflexivity|exact Hr]. }
  split; [reflexivity|]. split; [reflexivity|]. split; [reflexivity|].
  split; [reflexivity|].
  intros s data Hs Ha. eexists. split.
  { apply message_announced; [exact Hr|exact Hs|exact Ha]. }
  split; [reflexivity|]. simpl. apply lookup_insert_eq.
Qed.

(** What the first response of a pull leads to. *)
Lemma step_Boards w id boards :
  rendered w → pending w !! id = Some loadBoard_boards →
  step JSON_parse w (Response id (Fulfilled (Boards boards))) =
  Some match boards with
       | first :: _ =>
           set_issued (issued w ++ [snapshot_request (JS.get first "id")])
             (set_pending
                (<[length (issued w) := loadBoard_snapshot]> (delete id (pending w))) w)
       | [] => set_pending (delete id (pending w)) w
       end.
Proof.
  intros Hr Hp. erewrite step_Response; [|exact Hp|reflexivity]. f_equal.
  destruct boards as [|first rest]; by apply run_handler_done.
Qed.

(** C10: a board load asks for the list of boards, then for the first
    board of the list, and the snapshot becomes what that request returns;
    on an empty list it asks for nothing more and leaves the snapshot as it
    is (not yet loaded, if it was not). *)
Theorem loadBoard_selects_first_board (w : world) (id : nat) (boards : list obj) :
  rendered w → pending w !! id = Some loadBoard_boards →
  ∃ w', step JSON_parse w (Response id (Fulfilled (Boards boards))) = Some w' ∧
        board w' = board w ∧
        match boards with
        | first :: _ =>
            issued w' = (issued w ++ [snapshot_request (JS.get first "id")])%list ∧
            ∀ snapshot,
              ∃ w'', step JSON_parse w'
                       (Response (length (issued w)) (Fulfilled (Snapshot snapshot)))
                     = Some w'' ∧
                     board w'' = Some snapshot ∧ issued w'' = issued w'
        | [] => issued w' = issued w ∧ local_state w' = local_state w
        end.
Proof.
  intros Hr Hp. eexists. split; [by apply step_Boards|].
  destruct boards as [|first rest]; [done|].
  split; [reflexivity|]. split; [reflexivity|].
  intros snapshot. eexists. split.
  { eapply step_Response; [apply lookup_insert_eq|reflexivity]. }
  split.
  - rewrite run_handler_board. reflexivity.
  - unfold run_handler. unfold_handlers. run_monad. simpl.
    by rewrite render_rendered.
Qed.

End Loads.

(** ** Counting the pulls of a run *)

Lemma snapshot_request_not_pull boardId : is_pull (snapshot_request boardId) = false.
Proof.
  unfold is_pull, snapshot_request. simpl. reflexivity.
Qed.

Lemma list_comments_request_not_pull cardId :
  is_pull (list_comments_request cardId) = false.
Proof.
  unfold is_pull, list_comments_request. simpl. reflexivity.
Qed.

Lemma pulls_set_issued w x r :
  pulls (set_issued (issued w ++ [r]) x) = pulls w + (if is_pull r then 1 else 0).
Proof. unfold pulls at 1. simpl. apply pulls_app. Qed.

(** Proves a handler [silent]: unfolds it and looks at each request. *)
Ltac hush :=
  intros w; cbv [render mount_CardModal]; unfold_handlers; run_monad; simpl;
  repeat case_match; simplify_eq/=;
  repeat match goal with
         | |- context [pulls (set_issued (issued ?w ++ [?r]) ?x)] =>
             rewrite (pulls_set_issued w x r)
         end;
  fold (snapshot_request); fold (list_comments_request);
  rewrite ?snapshot_request_not_pull, ?list_comments_request_not_pull;
  simpl; rewrite ?Nat.add_0_r; done.

Section Counting.

Variable JSON_parse : string -> option value.

Lemma silent_ret : silent (mret ()).
Proof. hush. Qed.
Lemma silent_onopen : silent onopen.
Proof. hush. Qed.
Lemma silent_onerror : silent onerror.
Proof. hush. Qed.
Lemma silent_onclose : silent onclose.
Proof. hush. Qed.
Lemma silent_createCard columnId answer : silent (createCard columnId answer).
Proof. hush. Qed.
Lemma silent_openCardModal c : silent (openCardModal c).
Proof. hush. Qed.
Lemma silent_onDragEnd result : silent (onDragEnd result).
Proof. hush. Qed.
Lemma silent_update_modal inst f : silent (update_modal inst f).
Proof. hush. Qed.
Lemma silent_handleSave m : silent (handleSave m).
Proof. hush. Qed.
Lemma silent_deleteCard cardId confirmed : silent (deleteCard cardId confirmed).
Proof. hush. Qed.
Lemma silent_addComment m u : silent (addComment m u).
Proof. hush. Qed.
Lemma silent_onClose : silent onClose.
Proof. hush. Qed.
Lemma silent_render : silent render.
Proof. hush. Qed.

Lemma silent_resume k r h : resume k r = Some h → silent h.
Proof. destruct k, r as [[]|]; simpl; intros [= <-]; hush. Qed.

Lemma silent_run_handler h w :
  silent h →
  pulls (run_handler h w) = pulls w ∧ wiring (run_handler h w) = wiring w.
Proof.
  intros Hh. unfold run_handler. specialize (Hh w).
  destruct (h w) as [[a|e] w1]; simpl in Hh; destruct Hh as [Hp Hw].
  - destruct (silent_render w1) as [-> ->]. done.
  - destruct (silent_render (set_uncaught (uncaught w1 ++ [e]) w1)) as [-> ->]. done.
Qed.

(** The message handler starts a pull exactly for a message that
    announces a recognized change. *)
Lemma onmessage_counts data w :
  pulls (run_handler (onmessage JSON_parse data) w) =
    pulls w + (if announces JSON_parse data then 1 else 0) ∧
  wiring (run_handler (onmessage JSON_parse data) w) = wiring w.
Proof.
  unfold run_handler, announces, onmessage.
  destruct (JSON_parse data) as [message|]; cbv [mbind M_bind mret M_ret throw].
  - unfold handleWebSocketMessage. cbv [mbind M_bind mret M_ret console_log modify lift].
    destruct (JS.member message "type") as [e|type]; cbv [throw mret M_ret].
    + match goal with |- context [render ?x] => destruct (silent_render x) as [-> ->] end.
      split; [unfold pulls; simpl; lia|done].
    + destruct (recognized type); cbv [mret M_ret]; rewrite ?loadBoard_run;
        match goal with |- context [render ?x] => destruct (silent_render x) as [-> ->] end.
      * split; [|done]. by rewrite pulls_set_issued.
      * split; [unfold pulls; simpl; lia|done].
  - match goal with |- context [render ?x] => destruct (silent_render x) as [-> ->] end.
    split; [unfold pulls; simpl; lia|done].
Qed.

(** The reconnection starts no pull, and its socket carries no handler. *)
Lemma reconnect_counts w :
  pulls (run_handler reconnect w) = pulls w ∧
  wiring (run_handler reconnect w) = wiring w ++ [false].
Proof.
  unfold run_handler, reconnect, new_WebSocket, setWs.
  cbv [mbind M_bind mret M_ret modify].
  match goal with |- context [render ?x] => destruct (silent_render x) as [-> ->] end.
  split; [done|]. unfold wiring. simpl. by rewrite fmap_app.
Qed.

Lemma wiring_set_state s st w : wiring (set_state s st w) = wiring w.
Proof.
  unfold wiring, set_state. simpl.
  rewrite (list_fmap_alter wired _ id) by by apply Forall_true.
  by apply list_alter_id.
Qed.

Lemma pulls_set_state s st w : pulls (set_state s st w) = pulls w.
Proof. reflexivity. Qed.

(** One event: a pull more exactly when it delivers a recognized change;
    and the sockets it may add carry no handler. *)
Lemma step_counts w e w' :
  step JSON_parse w e = Some w' →
  pulls w' = pulls w + (if delivers JSON_parse w e then 1 else 0) ∧
  ∃ n, wiring w' = wiring w ++ replicate n false.
Proof.
  assert (∀ h x, silent h → pulls x = pulls w → wiring x = wiring w →
            pulls (run_handler h x) = pulls w + 0 ∧
            ∃ n, wiring (run_handler h x) = wiring w ++ replicate n false) as Silent.
  { intros h x Hh Hp Hw. destruct (silent_run_handler h x Hh) as [-> ->].
    split; [lia|]. exists 0. by rewrite Hw, app_nil_r. }
  unfold step. destruct (dispatch JSON_parse w e) as [[w1 h]|] eqn:D; simpl; [|discriminate].
  intros [= <-]. destruct e; simpl in D; simpl delivers;
    repeat (match type of D with
            | (_ ≫= _) = Some _ => apply bind_Some in D as (? & ? & D); simpl in D
            | (guard _;; _) = Some _ => apply bind_Some in D as (? & _ & D); simpl in D
            | context [match ?x with _ => _ end] => destruct x eqn:?; simpl in D
            | None = Some _ => discriminate D
            end);
    try (injection D as <- <-);
    try (apply Silent;
         [first [apply silent_ret | apply silent_onopen | apply silent_onerror
                | apply silent_onclose | apply silent_createCard
                | apply silent_openCardModal | apply silent_onDragEnd
                | apply silent_update_modal | apply silent_handleSave
                | apply silent_deleteCard | apply silent_addComment
                | apply silent_onClose | eapply silent_resume; eassumption]
         | reflexivity
         | first [reflexivity | apply wiring_set_state]]).
  - assert (wiring w !! s = Some true) as ->.
    { unfold wiring. rewrite list_lookup_fmap.
      match goal with H : sockets w !! s = Some _ |- _ => rewrite H end.
      simpl. congruence. }
    match goal with
    | |- context [onmessage _ ?d] => destruct (onmessage_counts d w) as [-> ->]
    end.
    split; [done|]. exists 0. by rewrite app_nil_r.
  - assert (wiring w !! s = Some false) as ->.
    { unfold wiring. rewrite list_lookup_fmap.
      match goal with H : sockets w !! s = Some _ |- _ => rewrite H end.
      simpl. congruence. }
    by apply Silent; [apply silent_ret|..].
  - destruct (reconnect_counts (set_timers (delete t (timers w)) (scheduled w) w))
      as [-> ->].
    split; [done|]. by exists 1.
Qed.

(** The handlers a socket carries are those it was created with; the
    sockets a run adds carry none.  So whether a message is delivered can
    be told from the sockets at the start. *)
Lemma delivers_later w0 w n e :
  wiring w = wiring w0 ++ replicate n false →
  delivers JSON_parse w e = delivers JSON_parse w0 e.
Proof.
  intros Hw. destruct e; simpl; try done. rewrite Hw.
  destruct (decide (s < length (wiring w0))) as [Hlt|Hge].
  - by rewrite lookup_app_l.
  - rewrite lookup_app_r, (lookup_ge_None_2 (wiring w0)) by lia.
    destruct (replicate n false !! _) as [b|] eqn:E; [|done].
    apply lookup_replicate in E as [-> _]. done.
Qed.

Lemma run_counts es w0 w w' n :
  wiring w = wiring w0 ++ replicate n false →
  run JSON_parse w es = Some w' →
  pulls w' = pulls w + length (List.filter (delivers JSON_parse w0) es).
Proof.
  revert w n. induction es as [|e es IH]; simpl; intros w n Hw Hrun.
  - injection Hrun as <-. lia.
  - destruct (step JSON_parse w e) as [w1|] eqn:St; simpl in Hrun; [|discriminate].
    destruct (step_counts _ _ _ St) as [Hp [k Hk]].
    rewrite (delivers_later w0 w n e Hw) in Hp.
    rewrite (IH w1 (n + k)), Hp.
    + destruct (delivers JSON_parse w0 e); simpl; lia.
    + by rewrite Hk, Hw, <- (assoc_L (++)), replicate_add.
    + done.
Qed.

(** C1 (amended): every recognized change event delivered on the channel
    starts one full pull, whether or not a pull is already in flight: there
    is no coalescing, and nothing else starts a pull.  So over every
    sequence of events, from any state of the client, the number of pulls
    started is the number of messages received on a socket that carries
    the handlers and announcing a recognized change. *)
Theorem pulls_count_recognized_events (es : list event) (w w' : world) :
  run JSON_parse w es = Some w' →
  pulls w' = pulls w + length (List.filter (delivers JSON_parse w) es).
Proof.
  intros Hrun. apply (run_counts es w w w' 0); [|exact Hrun].
  by rewrite app_nil_r.
Qed.


End Counting.

(** ** Request numbers are fresh *)

Lemma numbered_await (p : gmap nat cont) (sent : list request) k r :
  (∀ id, is_Some (p !! id) → id < length sent) →
  ∀ id, is_Some (<[length sent := k]> p !! id) → id < length (sent ++ [r]).
Proof.
  intros Hn id. rewrite length_app. simpl.
  destruct (decide (length sent = id)) as [<-|Hne]; [lia|].
  rewrite lookup_insert_ne by done. intros H. specialize (Hn id H). lia.
Qed.

Lemma numbered_answered (p : gmap nat cont) (sent : list request) i :
  (∀ id, is_Some (p !! id) → id < length sent) →
  ∀ id, is_Some (delete i p !! id) → id < length sent.
Proof.
  intros Hn id. destruct (decide (i = id)) as [<-|Hne].
  - rewrite lookup_delete_eq. by intros [? ?].
  - rewrite lookup_delete_ne by done. apply Hn.
Qed.

(** Proves a handler [orderly]: all it does to the requests is [await]. *)
Ltac order :=
  let w := fresh "w" in
  let Hn := fresh "Hn" in
  intros w Hn; cbv [render mount_CardModal]; unfold_handlers; run_monad; simpl;
  repeat case_match; simplify_eq/=; unfold numbered in *; simpl;
  repeat first [exact Hn | apply numbered_await].

Section Numbering.

Variable JSON_parse : string -> option value.

Lemma orderly_render : orderly render.
Proof. order. Qed.

Lemma orderly_resume k r h : resume k r = Some h → orderly h.
Proof. destruct k, r as [[]|]; simpl; intros [= <-]; order. Qed.

Lemma orderly_dispatch w e w1 h :
  numbered w → dispatch JSON_parse w e = Some (w1, h) → numbered w1 ∧ orderly h.
Proof.
  intros Hn D. destruct e; simpl in D;
    repeat (match type of D with
            | (_ ≫= _) = Some _ => apply bind_Some in D as (? & ? & D); simpl in D
            | (guard _;; _) = Some _ => apply bind_Some in D as (? & _ & D); simpl in D
            | context [match ?x with _ => _ end] => destruct x eqn:?; simpl in D
            | None = Some _ => discriminate D
            end);
    injection D as <- <-;
    (split; [first [exact Hn | unfold numbered in *; simpl; by apply numbered_answered]
            |first [eapply orderly_resume; eassumption | order]]).
Qed.

Lemma numbered_run_handler h w : orderly h → numbered w → numbered (run_handler h w).
Proof.
  intros Hh Hn. unfold run_handler. specialize (Hh w Hn).
  destruct (h w) as [[a|e] w1]; simpl in Hh; by apply orderly_render.
Qed.

Lemma step_numbered w e w' :
  numbered w → step JSON_parse w e = Some w' → numbered w'.
Proof.
  intros Hn. unfold step.
  destruct (dispatch JSON_parse w e) as [[w1 h]|] eqn:D; simpl; [|discriminate].
  intros [= <-]. destruct (orderly_dispatch _ _ _ _ Hn D) as [Hn1 Hh].
  by apply numbered_run_handler.
Qed.

Lemma mount_numbered r : numbered (mount r).
Proof.
  unfold mount. apply numbered_run_handler; [|by intros id [? ?]].
  intros w Hn. unfold mount_effects. unfold_handlers. run_monad. simpl.
  unfold numbered in *. simpl. by apply numbered_await.
Qed.

(** No request of a run takes the number of a request still unanswered. *)
Lemma run_numbered r es w :
  run JSON_parse (mount r) es = Some w → numbered w.
Proof.
  generalize (mount_numbered r). generalize (mount r).
  induction es as [|e es IH]; simpl; intros w0 Hn Hrun.
  - by injection Hrun as <-.
  - destruct (step JSON_parse w0 e) as [w1|] eqn:St; simpl in Hrun; [|discriminate].
    eapply IH; [eapply step_numbered; eassumption|exact Hrun].
Qed.

End Numbering.

(** ** The search filter *)

Lemma starts_with_spec sub s :
  starts_with sub s = true ↔ ∃ after, s = sub +:+ after.
Proof.
  revert s. induction sub as [|a sub IH]; intros s; simpl.
  - split; [by exists s|done].
  - destruct s as [|b s].
    + split; [done|]. intros [after E]. discriminate.
    + rewrite andb_true_iff, bool_decide_eq_true, IH. split.
      * intros [-> [after ->]]. by exists after.
      * intros [after E]. injection E as -> ->. eauto.
Qed.

Lemma includes_spec s sub :
  includes s sub = true ↔ ∃ before after, s = before +:+ sub +:+ after.
Proof.
  induction s as [|c s IH].
  - simpl. rewrite orb_false_r, starts_with_spec. split.
    + intros [after E]. by exists EmptyString, after.
    + intros (before & after & E). destruct before; [by exists after|discriminate].
  - cbn [includes]. rewrite orb_true_iff, starts_with_spec, IH. split.
    + intros [[after E]|(before & after & E)].
      * by exists EmptyString, after.
      * exists (String c before), after. simpl. by rewrite E.
    + intros (before & after & E). destruct before as [|b before].
      * left. by exists after.
      * right. injection E as -> ->. by exists before, after.
Qed.

Lemma toLowerCase_empty s : toLowerCase s = EmptyString → s = EmptyString.
Proof. by destruct s. Qed.

Lemma search_test_searchable q c :
  searchable c → ∃ keep, search_test q c = inr keep.
Proof.
  intros [[t Ht] Hd]. unfold search_test. rewrite Ht. simpl.
  destruct (includes _ _); [eauto|].
  destruct Hd as [[d ->]| ->]; [|eauto].
  destruct (truthy (VStr d)); simpl; eauto.
Qed.

(** On a card it can read, the test says whether the search text is in
    the title or in the description. *)
Lemma search_test_found q c :
  q ≠ EmptyString → search_test q c = inr true ↔ (∃ k, search_test q c = inr k) ∧ found_in q c.
Proof.
  intros Hq. unfold search_test, found_in, contains_ignoring_case.
  destruct (JS.get c "title") as [| | | |t| |] eqn:Ht; simpl;
    try (split; [discriminate|by intros [[k ?] _]]).
  destruct (includes (toLowerCase t) (toLowerCase q)) eqn:It.
  { split; [|done]. intros _. split; [eauto|].
    exists t. split; [by left|]. by apply includes_spec. }
  assert (¬ ∃ before after, toLowerCase t = before +:+ toLowerCase q +:+ after) as Nt
    by (rewrite <- includes_spec; congruence).
  destruct (JS.get c "description") as [| | | |d| |] eqn:Hd; simpl;
    try (split; [discriminate|];
         intros [_ (text & [E|E] & Hc)]; [injection E as <-; by destruct Nt|discriminate]).
  - destruct b; simpl; (split; [discriminate|]);
      intros [_ (text & [E|E] & Hc)];
      solve [injection E as <-; by destruct Nt|discriminate].
  - destruct (negb (z =? 0)%Z); simpl; (split; [discriminate|]);
      intros [_ (text & [E|E] & Hc)];
      solve [injection E as <-; by destruct Nt|discriminate].
  - cbn [truthy toLowerCase_of]. destruct (JS.truthy_string d) eqn:Td.
    + split.
      * intros [= Hi]. split; [eauto|]. exists d. split; [by right|].
        by apply includes_spec.
      * intros [_ (text & [E|E] & Hc)]; injection E as <-; [by destruct Nt|].
        f_equal. by apply includes_spec.
    + destruct d; [|discriminate]. split; [discriminate|].
      intros [_ (text & [E|E] & before & after & Hc)]; injection E as <-.
      * destruct Nt. eauto.
      * simpl in Hc. destruct before; [|discriminate]. simpl in Hc.
        destruct (toLowerCase q) eqn:Lq; [|discriminate].
        by apply toLowerCase_empty in Lq.
Qed.

Lemma search_test_throws q c e :
  search_test q c = inl e ↔ e = TypeError ∧ unreadable q c.
Proof.
  unfold search_test, unreadable.
  destruct (JS.get c "title") as [| | | |t| |]; simpl;
    try (split; [by intros [= <-]|by intros [-> _]]).
  destruct (includes (toLowerCase t) (toLowerCase q)).
  { split; [discriminate|]. by intros [_ [? _]]. }
  destruct (JS.get c "description") as [| |b|z|d| |]; simpl;
    try (split; [discriminate|]; by intros [_ (_ & ? & _)]);
    try (split; [by intros [= <-]|by intros [-> _]]).
  - destruct b; simpl; [split; [by intros [= <-]|by intros [-> _]]|].
    split; [discriminate|]. by intros [_ (_ & ? & _)].
  - destruct (negb (z =? 0)%Z); simpl; [split; [by intros [= <-]|by intros [-> _]]|].
    split; [discriminate|]. by intros [_ (_ & ? & _)].
  - destruct (JS.truthy_string d); split; try discriminate;
      intros [_ (_ & ? & Hd)]; try done. by destruct (Hd d).
Qed.

(** What [filter] returns: the cards that pass, in their order. *)
Lemma filter_by_returns test cards kept :
  filter_by test cards = inr kept →
  sublist kept cards ∧ ∀ c, c ∈ kept ↔ c ∈ cards ∧ test c = inr true.
Proof.
  revert kept. induction cards as [|card rest IH]; simpl; intros kept.
  - intros [= <-]. split; [done|]. intros c. split; [by intros ?%elem_of_nil|].
    by intros [?%elem_of_nil _].
  - destruct (test card) as [e|keep] eqn:T; [discriminate|].
    destruct (filter_by test rest) as [e|kept'] eqn:F; [discriminate|].
    intros [= <-]. destruct (IH kept' eq_refl) as [Hs Hm].
    destruct keep.
    + split; [by apply sublist_skip|]. intros c. rewrite !elem_of_cons, Hm.
      split; [intros [->|[? ?]]; eauto|]. intros [[->|?] ?]; eauto.
    + split; [by apply sublist_cons|]. intros c. rewrite elem_of_cons, Hm.
      split; [intros [? ?]; eauto|]. intros [[->|?] ?]; [congruence|eauto].
Qed.

(** [filter] throws what the test of one of the cards throws. *)
Lemma filter_by_throws test cards e :
  filter_by test cards = inl e → ∃ c, c ∈ cards ∧ test c = inl e.
Proof.
  induction cards as [|card rest IH]; simpl; [discriminate|].
  destruct (test card) as [e'|keep] eqn:T.
  - intros [= <-]. exists card. split; [by left|done].
  - destruct (filter_by test rest) as [e'|kept]; [|by destruct keep].
    intros [= <-]. destruct (IH eq_refl) as (c & ? & ?).
    exists c. split; [by right|done].
Qed.

Lemma filter_by_stops test cards c e :
  c ∈ cards → test c = inl e → ∃ e', filter_by test cards = inl e'.
Proof.
  intros Hc Ht. induction cards as [|card rest IH]; [by apply elem_of_nil in Hc|].
  simpl. apply elem_of_cons in Hc as [<-|Hc].
  - rewrite Ht. eauto.
  - destruct (test card); [eauto|]. destruct (IH Hc) as [e' ->]. eauto.
Qed.

Lemma filter_by_total test cards :
  (∀ c, c ∈ cards → ∃ keep, test c = inr keep) →
  ∃ kept, filter_by test cards = inr kept.
Proof.
  induction cards as [|card rest IH]; simpl; intros H; [eauto|].
  destruct (H card) as [keep ->]; [by left|].
  destruct IH as [kept ->]; [intros c ?; apply H; by right|]. eauto.
Qed.

Lemma filter_by_again test cards kept :
  filter_by test cards = inr kept → filter_by test kept = inr kept.
Proof.
  revert kept. induction cards as [|card rest IH]; simpl; intros kept.
  - by intros [= <-].
  - destruct (test card) as [e|keep] eqn:T; [discriminate|].
    destruct (filter_by test rest) as [e|kept'] eqn:F; [discriminate|].
    intros [= <-]. specialize (IH kept' eq_refl).
    destruct keep; [|done]. simpl. by rewrite T, IH.
Qed.

(** X4: the search shows the cards whose title or description holds the text
    typed, letter case apart, in the order of the column; with an empty
    text these are all the cards.  This for cards it can read. *)
Theorem filterCards_finds (q : string) (cards : list Card) :
  Forall searchable cards →
  ∃ kept, filterCards q cards = inr kept ∧ sublist kept cards ∧
          (q = EmptyString → kept = cards) ∧
          ∀ c, c ∈ kept ↔ c ∈ cards ∧ found_in q c.
Proof.
  intros Hs. rewrite Forall_forall in Hs. unfold filterCards.
  destruct q as [|x q]; simpl.
  - exists cards. split; [done|]. split; [done|]. split; [done|].
    intros c. split; [|by intros [? _]]. intros Hc. split; [done|].
    destruct (Hs c Hc) as [[t Ht] _]. exists t. split; [by left|].
    by exists EmptyString, (toLowerCase t).
  - destruct (filter_by_total (search_test (String x q)) cards) as [kept Hk].
    { intros c Hc. by apply search_test_searchable, Hs. }
    exists kept. split; [done|]. destruct (filter_by_returns _ _ _ Hk) as [Hsub Hm].
    split; [done|]. split; [done|]. intros c. rewrite Hm.
    split; intros [Hc Ht]; (split; [done|]).
    + by apply search_test_found in Ht as [_ ?].
    + apply search_test_found; [done|]. split; [|done].
      by apply search_test_searchable, Hs.
Qed.

(** X5: the search throws exactly when a text is typed and the test cannot
    read one of the cards: a card whose title is not a string, or whose
    description is a truthy value that is not a string.  With no text
    typed it returns every card, readable or not. *)
Theorem filterCards_throws (q : string) (cards : list Card) (e : error) :
  filterCards q cards = inl e ↔
  e = TypeError ∧ q ≠ EmptyString ∧ ∃ c, c ∈ cards ∧ unreadable q c.
Proof.
  unfold filterCards. destruct q as [|x q]; simpl.
  { split; [discriminate|]. by intros (_ & ? & _). }
  split.
  - intros (c & Hc & Ht)%filter_by_throws.
    apply search_test_throws in Ht as [-> Hu]. eauto.
  - intros (-> & _ & c & Hc & Hu).
    destruct (filter_by_stops (search_test (String x q)) cards c TypeError Hc)
      as [e F]; [by apply search_test_throws|].
    rewrite F. f_equal.
    by apply filter_by_throws in F as (c' & _ & [-> _]%search_test_throws).
Qed.

(** X6: searching among the cards found finds them all again. *)
Theorem filterCards_idempotent (q : string) (cards kept : list Card) :
  filterCards q cards = inr kept → filterCards q kept = inr kept.
Proof.
  unfold filterCards. destruct (negb (JS.truthy_string q)); [done|].
  apply filter_by_again.
Qed.

(** ** What every run keeps *)

(** Splits [D : dispatch w e = Some (w1, h)], for a given event, into the
    handler reached and the facts that enabled it. *)
Ltac dispatched D :=
  simpl in D;
  repeat (match type of D with
          | (_ ≫= _) = Some _ => apply bind_Some in D as (? & ? & D); simpl in D
          | (guard _;; _) = Some _ => apply bind_Some in D as (? & _ & D); simpl in D
          | context [match ?x with _ => _ end] => destruct x eqn:?; simpl in D
          | None = Some _ => discriminate D
          end);
  try (injection D as <- <-).

(** Runs the handler of a goal about [run_handler h w], rendering
    included, down to the states it can end in. *)
Ltac handled :=
  unfold run_handler; cbv [render mount_CardModal]; unfold_handlers; run_monad; simpl;
  repeat case_match; simplify_eq/=.

Section Invariants.

Variable JSON_parse : string -> option value.

(** No handler sets the user's name. *)
Lemma step_username w e w' :
  step JSON_parse w e = Some w' → username w' = username w.
Proof.
  unfold step. destruct (dispatch JSON_parse w e) as [[w1 h]|] eqn:D; simpl; [|discriminate].
  intros [= <-]. destruct e; dispatched D; try (by handled).
  match goal with H : resume ?k ?r = Some _ |- _ =>
    destruct k, r as [[]|]; simpl in H; simplify_eq
  end; by handled.
Qed.

(** X15: the name shown is the one chosen when the page was mounted. *)
Theorem username_is_chosen_once (random : nat) (es : list event) (w : world) :
  run JSON_parse (mount random) es = Some w →
  username w = "Guest_" +:+ pretty random.
Proof.
  assert (username (mount random) = "Guest_" +:+ pretty random) as <- by reflexivity.
  generalize (mount random). induction es as [|e es IH]; simpl; intros w0 Hrun.
  - by injection Hrun as <-.
  - destruct (step JSON_parse w0 e) as [w1|] eqn:St; simpl in Hrun; [|discriminate].
    rewrite (IH w1 Hrun). eapply step_username, St.
Qed.



Lemma coherent_rendered w : coherent w → rendered w.
Proof.
  unfold coherent, rendered. intros [Hi Hc].
  destruct (showCardModal w), (selectedCard w) as [c|], (modal w) as [m|];
    simpl in *; try done; try by eexists.
Qed.

Lemma coherent_cases w :
  coherent w →
  (showCardModal w = false ∧ selectedCard w = None ∧ modal w = None) ∨
  (∃ m, showCardModal w = true ∧ selectedCard w = Some (card m) ∧ modal w = Some m).
Proof.
  unfold coherent. intros [[Hi Hj] Hc].
  destruct (showCardModal w), (selectedCard w) as [c|], (modal w) as [m|];
    simpl in *; simplify_eq; eauto;
    first [by destruct (Hi eq_refl) | by specialize (Hj (ltac:(by eexists)))].
Qed.

(** Decides [coherent] of a state whose three fields are known. *)
Ltac settle :=
  unfold coherent; simpl;
  split; [split; [first [done | intros _; by eexists] | first [done | by intros [? ?]]]
         | done].

Lemma step_coherent w e w' :
  coherent w → step JSON_parse w e = Some w' → coherent w'.
Proof.
  intros Hc. unfold step.
  destruct (dispatch JSON_parse w e) as [[w1 h]|] eqn:D; simpl; [|discriminate].
  intros [= <-]. apply coherent_cases in Hc.
  destruct w as [b s u shown sel mo n so ti sc pe iss co un]. simpl in Hc.
  destruct Hc as [(-> & -> & ->)|(m & -> & -> & ->)];
    destruct e; dispatched D;
    try match goal with H : resume ?k ?r = Some _ |- _ =>
      destruct k, r as [[]|]; simpl in H; simplify_eq
    end;
    handled; settle.
Qed.

(** X17: the two state variables of the modal never disagree, and the modal on
    screen is always the one of the selected card. *)
Theorem selection_is_coherent (random : nat) (es : list event) (w : world) :
  run JSON_parse (mount random) es = Some w → coherent w.
Proof.
  assert (coherent (mount random)) as H.
  { split; [split; [done|by intros [? ?]]|done]. }
  revert H. generalize (mount random).
  induction es as [|e es IH]; simpl; intros w0 Hc Hrun.
  - by injection Hrun as <-.
  - destruct (step JSON_parse w0 e) as [w1|] eqn:St; simpl in Hrun; [|discriminate].
    eapply IH; [eapply step_coherent; eassumption|exact Hrun].
Qed.

(** What one event does to the sockets and the timers. *)
Lemma step_channel w e w' :
  step JSON_parse w e = Some w' →
  match e with
  | WsOpen s =>
      (∃ sock, sockets w !! s = Some sock ∧ state sock = CONNECTING) ∧
      sockets w' = sockets (set_state s OPEN w) ∧
      timers w' = timers w ∧ scheduled w' = scheduled w
  | WsClose s =>
      ∃ sock, sockets w !! s = Some sock ∧ state sock ≠ CLOSED ∧
              sockets w' = sockets (set_state s CLOSED w) ∧
              if wired sock
              then timers w' = <[scheduled w := {| delay := 3000; action := Reconnect |}]>
                                 (timers w) ∧
                   scheduled w' = S (scheduled w)
              else timers w' = timers w ∧ scheduled w' = scheduled w
  | TimerFired t =>
      is_Some (timers w !! t) ∧
      sockets w' = sockets w ++ [ {| state := CONNECTING; wired := false |} ] ∧
      timers w' = delete t (timers w) ∧ scheduled w' = scheduled w
  | _ => sockets w' = sockets w ∧ timers w' = timers w ∧ scheduled w' = scheduled w
  end.
Proof.
  unfold step. destruct (dispatch JSON_parse w e) as [[w1 h]|] eqn:D; simpl; [|discriminate].
  intros [= <-]. destruct e; dispatched D;
    try match goal with H : resume ?k ?r = Some _ |- _ =>
      destruct k, r as [[]|]; simpl in H; simplify_eq
    end;
    lazymatch goal with
    | |- (∃ _, _) ∧ _ => split; [by eauto|]; handled; repeat split; reflexivity
    | |- ∃ _, _ =>
        eexists; split; [eassumption|]; split; [done|];
        match goal with H : wired _ = _ |- _ => rewrite H end;
        handled; repeat split; reflexivity
    | |- is_Some _ ∧ _ => split; [by eexists|]; handled; repeat split; reflexivity
    | |- _ => handled; repeat split; reflexivity
    end.
Qed.

Lemma step_channel_shape w e w' :
  channel_shape w → step JSON_parse w e = Some w' → channel_shape w'.
Proof.
  intros Hs St. apply step_channel in St. unfold channel_shape in *.
  destruct e; try (destruct St as (-> & -> & ->); exact Hs).
  - (* open *)
    destruct St as ([sock [Hl Hc]] & -> & -> & ->). unfold set_state. simpl.
    destruct Hs as [(st & Hst & E & Et & En)|[(E & Et & En)|(st & E & Et & En)]];
      rewrite E in *.
    + destruct s; [|done]. injection Hl as <-. left. by exists OPEN.
    + destruct s; [|done]. by injection Hl as <-.
    + destruct s as [|[|s]]; [by injection Hl as <-| |done].
      injection Hl as <-. right. right. by exists OPEN.
  - (* close *)
    destruct St as (sock & Hl & Hc & -> & Ht). unfold set_state. simpl.
    destruct Hs as [(st & Hst & E & Et & En)|[(E & Et & En)|(st & E & Et & En)]];
      rewrite E in *.
    + destruct s; [|done]. injection Hl as <-. destruct Ht as [-> ->].
      right. left. by rewrite Et, En.
    + destruct s; [|done]. by injection Hl as <-.
    + destruct s as [|[|s]]; [by injection Hl as <-| |done].
      injection Hl as <-. destruct Ht as [-> ->]. right. right. by exists CLOSED.
  - (* the timer *)
    destruct St as ([tm Hl] & -> & -> & ->).
    destruct Hs as [(st & Hst & E & Et & En)|[(E & Et & En)|(st & E & Et & En)]];
      rewrite Et in Hl.
    + by rewrite lookup_empty in Hl.
    + apply lookup_singleton_Some in Hl as [<- _]. right. right.
      exists CONNECTING. rewrite E, Et, delete_singleton_eq. done.
    + by rewrite lookup_empty in Hl.
Qed.

Lemma mount_channel_shape random : channel_shape (mount random).
Proof. left. by exists CONNECTING. Qed.

Lemma run_channel_shape es w w' :
  channel_shape w → run JSON_parse w es = Some w' → channel_shape w'.
Proof.
  revert w. induction es as [|e es IH]; simpl; intros w Hs Hrun.
  - by injection Hrun as <-.
  - destruct (step JSON_parse w e) as [w1|] eqn:St; simpl in Hrun; [|discriminate].
    eapply IH; [eapply step_channel_shape; eassumption|exact Hrun].
Qed.

(** X18: the channel never reconnects twice: in every run there are at most two
    sockets, only the first carries the handlers, at most one timer was
    ever scheduled, and once the first socket has closed and the timer has
    fired nothing is left to bring the channel back. *)
Theorem channel_reconnects_at_most_once (random : nat) (es : list event) (w : world) :
  run JSON_parse (mount random) es = Some w →
  channel_shape w ∧ (length (sockets w) ≤ 2)%nat ∧ (scheduled w ≤ 1)%nat ∧
  ∀ s sock, sockets w !! s = Some sock → wired sock = true → s = 0.
Proof.
  intros Hrun.
  pose proof (run_channel_shape _ _ _ (mount_channel_shape random) Hrun) as Hs.
  split; [exact Hs|].
  destruct Hs as [(st & _ & E & _ & En)|[(E & _ & En)|(st & E & _ & En)]];
    rewrite E, En; (split; [simpl; lia|]); (split; [lia|]);
    intros [|[|s]] sock Hl Hw; simplify_eq/=; done.
Qed.

Lemma step_WsMessage_open w s data w' :
  step JSON_parse w (WsMessage s data) = Some w' →
  ∃ sock, sockets w !! s = Some sock ∧ state sock = OPEN.
Proof.
  unfold step. destruct (dispatch _ w _) as [[w1 h]|] eqn:D; simpl; [|discriminate].
  intros _. dispatched D; eauto.
Qed.

Lemma step_stays_disconnected w e w' :
  disconnected w → step JSON_parse w e = Some w' → disconnected w'.
Proof.
  intros [rest Hd] St. apply step_channel in St. unfold disconnected.
  destruct e; try (destruct St as (-> & _); by eexists).
  - destruct St as ((sock & Hl & Hc) & -> & _). unfold set_state. simpl.
    rewrite Hd in *. destruct s as [|s]; [|by eexists].
    injection Hl as <-. discriminate.
  - destruct St as (sock & Hl & Hc & -> & _). unfold set_state. simpl.
    rewrite Hd in *. destruct s as [|s]; [|by eexists].
    by injection Hl as <-.
  - destruct St as (_ & -> & _). rewrite Hd. by eexists.
Qed.

Lemma step_disconnected_pulls w e w' :
  channel_shape w → disconnected w → step JSON_parse w e = Some w' →
  pulls w' = pulls w.
Proof.
  intros Hs [rest Hd] St. destruct (step_counts _ _ _ _ St) as [-> _].
  destruct e; simpl; try lia.
  apply step_WsMessage_open in St as (sock & Hl & Ho).
  unfold wiring. rewrite list_lookup_fmap, Hl. simpl.
  destruct (wired sock) eqn:Hw; [|lia]. exfalso.
  destruct Hs as [(st & ? & E & _)|[(E & _)|(st & E & _)]]; rewrite E in *;
    inversion Hd; subst.
  - done.
  - destruct s; [|done]. by injection Hl as <-.
  - destruct s as [|[|s]]; [| |done]; by injection Hl as <-.
Qed.

(** X19: once the first socket has closed, the page never pulls again: no
    event, on any socket, starts a pull from then on. *)
Theorem no_pull_after_disconnection
  (random : nat) (es es' : list event) (w w' : world) :
  run JSON_parse (mount random) es = Some w → disconnected w →
  run JSON_parse w es' = Some w' →
  pulls w' = pulls w ∧ disconnected w'.
Proof.
  intros Hrun. pose proof (run_channel_shape _ _ _ (mount_channel_shape random) Hrun) as Hs.
  clear Hrun. revert w Hs. induction es' as [|e es' IH]; simpl; intros w Hs Hd Hrun.
  - by injection Hrun as <-.
  - destruct (step JSON_parse w e) as [w1|] eqn:St; simpl in Hrun; [|discriminate].
    rewrite <- (step_disconnected_pulls _ _ _ Hs Hd St).
    apply IH; [eapply step_channel_shape; eassumption| |exact Hrun].
    eapply step_stays_disconnected; eassumption.
Qed.

End Invariants.

(** ** Cards: creating, opening, deleting *)

Section Cards.

Variable JSON_parse : string -> option value.

(** [findCard] looks the columns up in order, each from top to bottom. *)
Lemma findCard_in_flat cols cardId :
  findCard_in cols cardId =
  List.find (λ c, JS.strict_eq (JS.get c "id") cardId) (all_cards cols).
Proof.
  unfold all_cards. induction cols as [|column rest IH]; simpl; [done|].
  unfold find_card. rewrite IH. generalize (cards column). intros l.
  induction l as [|c l IHl]; simpl; [done|].
  by destruct (JS.strict_eq _ _).
Qed.

(** X7: [findCard] answers the first card of the board, in reading order, that
    has the id asked for, and null when no card has it. *)
Theorem findCard_finds_first (cols : list Column) (cardId : value) :
  match findCard_in cols cardId with
  | Some c =>
      ∃ before after,
        all_cards cols = before ++ c :: after ∧
        JS.strict_eq (JS.get c "id") cardId = true ∧
        Forall (λ x, JS.strict_eq (JS.get x "id") cardId = false) before
  | None => Forall (λ x, JS.strict_eq (JS.get x "id") cardId = false) (all_cards cols)
  end.
Proof.
  rewrite findCard_in_flat. generalize (all_cards cols). intros l.
  induction l as [|x l IH]; simpl; [done|].
  destruct (JS.strict_eq (JS.get x "id") cardId) eqn:E.
  - exists [], l. done.
  - destruct (List.find _ l) as [c|].
    + destruct IH as (before & after & -> & Hc & Hb).
      exists (x :: before), after. split; [done|]. split; [done|]. by constructor.
    + by constructor.
Qed.

(** X8: adding a card: a cancelled prompt or an empty title does nothing; any
    other title, white space included, is sent as typed in one request, for
    the column clicked and in the name of the user, the state of the
    components being left as it is; and a successful answer changes nothing
    of the client: the card is not put on the board by [createCard]. *)
Theorem createCard_sends_title_as_typed
  (w : world) (b : Board) (column : nat) (col : Column) (answer : option string) :
  rendered w → board w = Some b → columns b !! column = Some col →
  ∃ w', step JSON_parse w (ClickAddCard column answer) = Some w' ∧
        match answer with
        | None | Some EmptyString => w' = w
        | Some title =>
            issued w' = issued w ++ [create_card_request (column_id col) title (username w)] ∧
            local_state w' = local_state w ∧
            ∀ d, step JSON_parse w' (Response (length (issued w)) (Fulfilled d)) =
                 Some (set_pending (delete (length (issued w)) (pending w')) w')
        end.
Proof.
  intros Hr Hb Hc. unfold step at 1, dispatch. rewrite Hb. simpl. rewrite Hc. simpl.
  eexists. split; [reflexivity|].
  destruct answer as [[|x title]|]; [by run_handler_with Hr| |by run_handler_with Hr].
  run_handler_with Hr.
  split; [done|]. split; [done|]. intros d.
  erewrite step_Response; [|apply lookup_insert_eq|reflexivity].
  f_equal. by apply run_handler_done.
Qed.

(** What a click on a card does when no modal is on screen. *)
Lemma step_ClickCard w b column col position c :
  rendered w → modal w = None → board w = Some b →
  columns b !! column = Some col → cards col !! position = Some c →
  step JSON_parse w (ClickCard column position) =
  Some (set_issued (issued w ++ [list_comments_request (JS.get c "id")])
          (set_pending (<[length (issued w) := loadComments_get (mounts w)]> (pending w))
             (set_mounts (S (mounts w))
                (set_modal (Some (fresh_modal (mounts w) c))
                   (set_showCardModal true (set_selectedCard (Some c) w)))))).
Proof.
  intros Hr Hm Hb Hcol Hc. unfold step, dispatch.
  rewrite Hb. simpl. rewrite Hcol. simpl. rewrite Hc. simpl. rewrite Hm. simpl.
  f_equal. unfold run_handler, openCardModal, setSelectedCard, setShowCardModal.
  cbv [mbind M_bind mret M_ret modify]. unfold render.
  cbv [mbind M_bind mret M_ret modify gets id]. simpl. by rewrite Hm.
Qed.

(** X9: opening a card shows its title, description and priority as the
    snapshot has them, with no comment yet, and asks for its comments; the
    list shown is the one the server answers. *)
Theorem open_card_loads_comments
  (w : world) (b : Board) (column position : nat) (col : Column) (c : Card) :
  rendered w → modal w = None → board w = Some b →
  columns b !! column = Some col → cards col !! position = Some c →
  ∃ w', step JSON_parse w (ClickCard column position) = Some w' ∧
        modal w' = Some (fresh_modal (mounts w) c) ∧
        selectedCard w' = Some c ∧ showCardModal w' = true ∧
        issued w' = issued w ++ [list_comments_request (JS.get c "id")] ∧
        ∀ cs, ∃ w'',
          step JSON_parse w' (Response (length (issued w)) (Fulfilled (Comments cs))) =
            Some w'' ∧
          modal w'' = Some (set_comments cs (fresh_modal (mounts w) c)) ∧
          issued w'' = issued w'.
Proof.
  intros Hr Hm Hb Hcol Hc. eexists. split; [by eapply step_ClickCard|].
  split; [done|]. split; [done|]. split; [done|]. split; [done|].
  intros cs. eexists. split.
  { eapply step_Response; [apply lookup_insert_eq|reflexivity]. }
  unfold run_handler. unfold_handlers. run_monad. simpl.
  rewrite bool_decide_eq_true_2 by done. done.
Qed.

(** Closing the modal sends nothing and forgets what was typed. *)
Lemma step_ClickClose w m :
  rendered w → modal w = Some m →
  step JSON_parse w ClickClose =
  Some (set_modal None (set_selectedCard None (set_showCardModal false w))).
Proof.
  intros Hr Hm. unfold step, dispatch. rewrite Hm. reflexivity.
Qed.

(** X10: edits that are not saved are lost: after the modal is closed, opening
    a card again shows the fields of the snapshot, whatever was typed. *)
Theorem close_discards_edits
  (w : world) (m : CardModal) (b : Board) (column position : nat) (col : Column) (c : Card) :
  rendered w → modal w = Some m → board w = Some b →
  columns b !! column = Some col → cards col !! position = Some c →
  ∃ w1 w2, step JSON_parse w ClickClose = Some w1 ∧
           issued w1 = issued w ∧ closed w1 ∧
           step JSON_parse w1 (ClickCard column position) = Some w2 ∧
           modal w2 = Some (fresh_modal (mounts w) c).
Proof.
  intros Hr Hm Hb Hcol Hc. eexists _, _. split; [by eapply step_ClickClose|].
  split; [done|]. split; [done|].
  split; [by eapply step_ClickCard|reflexivity].
Qed.

(** X11: the answer to a request for comments made by a modal that is no longer
    on screen is dropped: the modal on screen, if any, keeps its list. *)
Theorem stale_comments_are_dropped (w : world) (id inst : nat) (cs : list obj) :
  rendered w → pending w !! id = Some (loadComments_get inst) →
  (∀ m, modal w = Some m → instance m ≠ inst) →
  step JSON_parse w (Response id (Fulfilled (Comments cs))) =
  Some (set_pending (delete id (pending w)) w).
Proof.
  intros Hr Hp Hi. erewrite step_Response; [|exact Hp|reflexivity]. f_equal.
  apply run_handler_done; [|exact Hr].
  unfold_handlers. run_monad. simpl.
  destruct (modal w) as [m|] eqn:Hm; [|done].
  by rewrite bool_decide_eq_false_2 by by apply Hi.
Qed.

(** X12: deleting: without confirmation nothing happens; with it one delete
    request is sent for the card of the modal, the board being left as it
    is; the modal closes when the request succeeds and stays, with an
    error logged, when it fails. *)
Theorem deleteCard_asks_first (w : world) (m : CardModal) (confirmed : bool) :
  rendered w → modal w = Some m →
  ∃ w', step JSON_parse w (ClickDelete confirmed) = Some w' ∧
        if confirmed then
          issued w' = issued w ++ [delete_request (JS.get (card m) "id")] ∧
          local_state w' = local_state w ∧
          ∀ r, ∃ w'', step JSON_parse w' (Response (length (issued w)) r) = Some w'' ∧
                      board w'' = board w ∧ issued w'' = issued w' ∧
                      match r with
                      | Fulfilled _ => closed w''
                      | Rejected _ =>
                          modal w'' = Some m ∧
                          console w'' = console w ++ [(ERROR, "Error deleting card:")]
                      end
        else w' = w.
Proof.
  intros Hr Hm. unfold step at 1, dispatch. rewrite Hm. simpl.
  eexists. split; [reflexivity|].
  destruct confirmed; [|by run_handler_with Hr].
  run_handler_with Hr. split; [done|]. split; [done|]. intros r.
  assert (∃ h, resume deleteCard_delete r = Some h) as [h Hh]
    by (destruct r; simpl; eauto).
  eexists. split.
  { eapply step_Response; [apply lookup_insert_eq|exact Hh]. }
  destruct r as [d|e]; simpl in Hh; injection Hh as <-.
  - unfold run_handler. unfold_handlers. run_monad. cbv [render]. run_monad. simpl. done.
  - unfold run_handler. unfold_handlers. run_monad. simpl.
    rewrite render_rendered by exact Hr. simpl. done.
Qed.

(** X13: saving a card that the snapshot no longer holds sends nothing: the
    failure is logged and the modal stays as it is. *)
Theorem save_of_missing_card (w : world) (m : CardModal) (b : Board) :
  rendered w → modal w = Some m → board w = Some b →
  findCard_in (columns b) (JS.get (card m) "id") = None →
  step JSON_parse w ClickSave =
  Some (set_console (console w ++ [(ERROR, "Error updating card:")]) w).
Proof.
  intros Hr Hm Hb Hc. unfold step, dispatch. rewrite Hm. simpl. f_equal.
  unfold run_handler. unfold_handlers. run_monad. simpl.
  rewrite Hb. simpl. rewrite Hc. simpl. by rewrite render_rendered.
Qed.

(** X14: a comment that was posted: when the request succeeds the input is
    emptied and the comments are asked for again, and the list shown
    becomes the one the server answers. *)
Theorem posted_comment_is_shown (w : world) (m : CardModal) (id : nat) (d : payload)
  (cs : list obj) :
  rendered w → modal w = Some m →
  pending w !! id = Some (addComment_post (instance m) (card m)) →
  ∃ w1 w2,
    step JSON_parse w (Response id (Fulfilled d)) = Some w1 ∧
    modal w1 = Some (set_newComment EmptyString m) ∧
    issued w1 = issued w ++ [list_comments_request (JS.get (card m) "id")] ∧
    step JSON_parse w1 (Response (length (issued w)) (Fulfilled (Comments cs))) = Some w2 ∧
    modal w2 = Some (set_comments cs (set_newComment EmptyString m)) ∧
    issued w2 = issued w1.
Proof.
  intros Hr Hm Hp. destruct (rendered_modal _ _ Hr Hm) as [Hshow [sel Hsel]].
  assert (step JSON_parse w (Response id (Fulfilled d)) =
          Some (set_issued (issued w ++ [list_comments_request (JS.get (card m) "id")])
                  (set_pending (<[length (issued w) := loadComments_get (instance m)]>
                                  (delete id (pending w)))
                     (set_modal (Some (set_newComment EmptyString m)) w)))) as St.
  { erewrite step_Response; [|exact Hp|reflexivity]. f_equal.
    unfold run_handler. unfold_handlers. run_monad. simpl.
    rewrite Hm, bool_decide_eq_true_2 by done. simpl.
    rewrite render_rendered; [done|].
    unfold rendered. simpl. rewrite Hshow, Hsel. by eexists. }
  eexists _, _. split; [exact St|]. split; [done|]. split; [done|].
  split.
  { eapply step_Response; [apply lookup_insert_eq|reflexivity]. }
  unfold run_handler. unfold_handlers. run_monad. simpl.
  rewrite bool_decide_eq_true_2 by done. simpl.
  rewrite render_rendered; [done|].
  unfold rendered. simpl. rewrite Hshow, Hsel. by eexists.
Qed.

(** X20: leaving the page while the channel is open: the clean-up closes the
    socket, and the close event that follows runs [onclose] as for a lost
    connection; the reconnection is scheduled all the same, and a new
    socket is created when the timer fires. *)
Theorem cleanup_close_reconnects (w : world) (s : nat) :
  rendered w → listening w s →
  ∃ w1, (cleanup s w).2 = w1 ∧
        sockets w1 !! s = Some {| state := CLOSING; wired := true |} ∧
        ∃ w2, step JSON_parse w1 (WsClose s) = Some w2 ∧
              sockets w2 !! s = Some {| state := CLOSED; wired := true |} ∧
              timers w2 = <[scheduled w := {| delay := 3000; action := Reconnect |}]>
                            (timers w) ∧
              ∃ w3, step JSON_parse w2 (TimerFired (scheduled w)) = Some w3 ∧
                    sockets w3 = sockets w2 ++ [ {| state := CONNECTING; wired := false |} ].
Proof.
  intros Hr Hs. unfold listening in Hs.
  assert ((cleanup s w).2 = set_state s CLOSING w) as Hc.
  { unfold cleanup, close. cbv [mbind M_bind mret M_ret gets modify].
    rewrite Hs. reflexivity. }
  assert (s < length (sockets w)) as Hlt by by eapply lookup_lt_Some.
  eexists. split; [exact Hc|].
  assert (sockets (set_state s CLOSING w) !! s = Some {| state := CLOSING; wired := true |})
    as Hs1.
  { unfold set_state. simpl. rewrite list_lookup_alter_eq, Hs. done. }
  split; [exact Hs1|].
  set (w2 := set_timers (<[scheduled w := {| delay := 3000; action := Reconnect |}]> (timers w))
               (S (scheduled w))
               (set_console (console w ++ [(LOG, "WebSocket disconnected")])
                  (set_state s CLOSED (set_state s CLOSING w)))).
  assert (step JSON_parse (set_state s CLOSING w) (WsClose s) = Some w2) as St2.
  { unfold step, dispatch. rewrite Hs1. simpl. f_equal. by run_handler_with Hr. }
  exists w2. split; [exact St2|]. split.
  { unfold w2, set_state. simpl. rewrite !list_lookup_alter_eq, Hs. done. }
  split; [done|].
  eexists. split.
  { unfold step, dispatch, w2. simpl. rewrite lookup_insert_eq. simpl. reflexivity. }
  unfold run_handler. unfold_handlers. run_monad. simpl.
  by rewrite render_rendered by exact Hr.
Qed.

(** The clean-up leaves alone a socket that is not open: one that is still
    connecting stays so, and will open after the page is gone. *)
Theorem cleanup_skips_unopened_socket (w : world) (s : nat) (sock : socket) :
  sockets w !! s = Some sock → state sock ≠ OPEN → (cleanup s w).2 = w.
Proof.
  intros Hs Hst. unfold cleanup, close. cbv [mbind M_bind mret M_ret gets modify].
  rewrite Hs. simpl. rewrite bool_decide_eq_false_2; [done|]. congruence.
Qed.

End Cards.

(** ** The program at work: concrete runs *)

Lemma initial_rendered : rendered initial.
Proof. reflexivity. Qed.

Lemma after_rendered es : rendered (after es).
Proof.
  unfold after. destruct (run JSON.parse (mount 0) es) as [w|] eqn:E; simpl.
  - eapply run_rendered; [apply mount_rendered|exact E].
  - apply initial_rendered.
Qed.

(** C1 (counterexample): the channel is open and a first recognized event
    has started a pull, which is still in flight; a second recognized event
    arrives and starts a pull of its own behind it. *)
Lemma second_pull_behind_pull_in_flight :
  ∃ w1 w2,
    run JSON.parse (mount 0) [WsOpen 0; WsMessage 0 (wire_event "card_created")] = Some w1 ∧
    reloading w1 = true ∧
    step JSON.parse w1 (WsMessage 0 (wire_event "card_moved")) = Some w2 ∧
    pulls w2 = S (pulls w1).
Proof.
  eexists _, _. split; [vm_compute; reflexivity|].
  split; [vm_compute; reflexivity|].
  split; vm_compute; reflexivity.
Qed.

Lemma pulls_count_recognized_events_witness :
  let es := [ WsOpen 0;
              WsMessage 0 (wire_event "card_created");
              WsMessage 0 "{oops";
              Response 0 (Fulfilled (Boards []));
              WsMessage 0 (wire_event "ping");
              WsMessage 0 (wire_event "card_moved");
              WsClose 0; TimerFired 0; WsOpen 1;
              WsMessage 1 (wire_event "card_deleted") ] in
  run JSON.parse (mount 0) es = Some (after es) ∧
  length (List.filter (delivers JSON.parse (mount 0)) es) = 2 ∧
  pulls (after es) =
    pulls (mount 0) + length (List.filter (delivers JSON.parse (mount 0)) es).
Proof.
  intros es.
  assert (run JSON.parse (mount 0) es = Some (after es)) as Hrun
    by (vm_compute; reflexivity).
  split; [exact Hrun|]. split; [vm_compute; reflexivity|].
  exact (pulls_count_recognized_events JSON.parse es (mount 0) (after es) Hrun).
Defined.

(** C2 (counterexample): the channel closes, the reconnect timer fires and
    the new channel opens; across the reconnection and the reopening no
    pull is performed, where the claim has exactly one. *)
Lemma reopening_performs_no_pull :
  ∃ w1 w2,
    run JSON.parse (mount 0) [WsOpen 0; WsClose 0] = Some w1 ∧
    run JSON.parse w1 [TimerFired 0; WsOpen 1] = Some w2 ∧
    sockets w2 !! 1 = Some {| state := OPEN; wired := false |} ∧
    pulls w2 = pulls w1 ∧ issued w2 = issued w1.
Proof.
  eexists _, _. split; [vm_compute; reflexivity|].
  split; [vm_compute; reflexivity|].
  split; [vm_compute; reflexivity|].
  split; vm_compute; reflexivity.
Qed.

Lemma reconnect_pulls_nothing_witness :
  let w := after [WsOpen 0] in
  ∃ w', rendered w ∧
        run JSON.parse w [WsClose 0; TimerFired 0; WsOpen 1] = Some w' ∧
        pulls w' = pulls w ∧ issued w' = issued w ∧ pending w' = pending w ∧
        board w' = board w.
Proof.
  intros w. eexists.
  assert (rendered w) as Hr by apply after_rendered.
  split; [exact Hr|].
  assert (run JSON.parse w [WsClose 0; TimerFired 0; WsOpen 1] = Some _) as Hrun
    by (vm_compute; reflexivity).
  split; [exact Hrun|].
  exact (reconnect_pulls_nothing JSON.parse w _ 0 0 1 Hr Hrun).
Defined.

(** C3: after the reconnection the client holds the new socket, open, but
    no handler was assigned to it: an event received on it is not delivered
    (no pull starts, not a thing changes), and when it closes in turn no
    reconnection is scheduled. *)
Theorem reconnected_channel_is_deaf :
  ∃ w0 w1 w2,
    run JSON.parse (mount 0) [WsOpen 0; WsClose 0] = Some w0 ∧
    timers w0 = {[ 0 := {| delay := 3000; action := Reconnect |} ]} ∧
    run JSON.parse w0 [TimerFired 0; WsOpen 1] = Some w1 ∧
    ws w1 = Some 1 ∧
    step JSON.parse w1 (WsMessage 1 (wire_event "card_created")) = Some w1 ∧
    step JSON.parse w1 (WsClose 1) = Some w2 ∧
    timers w2 = ∅.
Proof.
  eexists _, _, _. split; [vm_compute; reflexivity|].
  split; [vm_compute; reflexivity|].
  assert (run JSON.parse (after [WsOpen 0; WsClose 0]) [TimerFired 0; WsOpen 1] =
          Some (after [WsOpen 0; WsClose 0; TimerFired 0; WsOpen 1])) as Hrun
    by (vm_compute; reflexivity).
  split; [exact Hrun|].
  assert (rendered (after [WsOpen 0; WsClose 0; TimerFired 0; WsOpen 1])) as Hr
    by apply after_rendered.
  split; [vm_compute; reflexivity|].
  split.
  - eapply step_WsMessage_unwired; [exact Hr|vm_compute; reflexivity|done|done].
  - split.
    + eapply step_WsClose_unwired; [exact Hr|vm_compute; reflexivity|done|done].
    + vm_compute. reflexivity.
Qed.

(** C4: a wire message that is not JSON makes [JSON.parse] throw, and
    nothing in [onmessage] catches it: the SyntaxError leaves the handler,
    with nothing logged by the program. *)
Theorem malformed_message_escapes :
  ∃ w w',
    run JSON.parse (mount 0) [WsOpen 0] = Some w ∧
    JSON.parse "{oops" = None ∧
    onmessage JSON.parse "{oops" w = (Thrown SyntaxError, w) ∧
    step JSON.parse w (WsMessage 0 "{oops") = Some w' ∧
    uncaught w = [] ∧ uncaught w' = [SyntaxError] ∧ console w' = console w.
Proof.
  assert (JSON.parse "{oops" = None) as Hbad by (vm_compute; reflexivity).
  eexists (after [WsOpen 0]), _.
  split; [vm_compute; reflexivity|]. split; [exact Hbad|].
  split; [by apply onmessage_malformed|].
  split.
  { apply step_WsMessage_malformed;
      [apply after_rendered|vm_compute; reflexivity|exact Hbad]. }
  split; [vm_compute; reflexivity|].
  split; vm_compute; reflexivity.
Qed.

Lemma board_changes_only_by_pull_witness :
  let e := Response 1 (Fulfilled (Snapshot scenario)) in
  step JSON.parse (after listing) e = Some (after loading) ∧
  board (after listing) = None ∧
  (board (after loading) = board (after listing) ∨
   ∃ id b, e = Response id (Fulfilled (Snapshot b)) ∧
           pending (after listing) !! id = Some loadBoard_snapshot ∧
           board (after loading) = Some b).
Proof.
  intros e.
  assert (step JSON.parse (after listing) e = Some (after loading)) as St
    by (vm_compute; reflexivity).
  split; [exact St|]. split; [vm_compute; reflexivity|].
  exact (board_changes_only_by_pull JSON.parse _ _ _ St).
Defined.

Lemma step_WsClose_wired_witness :
  let w := after loading in
  let sock := {| state := OPEN; wired := true |} in
  rendered w ∧ sockets w !! 0 = Some sock ∧ state sock ≠ CLOSED ∧ wired sock = true ∧
  step JSON.parse w (WsClose 0) =
  Some (set_timers (<[scheduled w := {| delay := 3000; action := Reconnect |}]> (timers w))
                   (S (scheduled w))
          (set_console (console w ++ [(LOG, "WebSocket disconnected")])
             (set_state 0 CLOSED w))).
Proof.
  intros w sock.
  assert (rendered w) as Hr by apply after_rendered.
  assert (sockets w !! 0 = Some sock) as Hs by (vm_compute; reflexivity).
  assert (state sock ≠ CLOSED) as Hst by discriminate.
  assert (wired sock = true) as Hw by reflexivity.
  split; [exact Hr|]. split; [exact Hs|]. split; [exact Hst|]. split; [exact Hw|].
  exact (step_WsClose_wired JSON.parse w 0 sock Hr Hs Hst Hw).
Defined.

Lemma message_not_announced_witness :
  let w := after loading in
  let data := wire_event "user_joined" in
  rendered w ∧ listening w 0 ∧ announces JSON.parse data = false ∧
  ∃ w', step JSON.parse w (WsMessage 0 data) = Some w' ∧
        issued w' = issued w ∧ pending w' = pending w ∧
        sockets w' = sockets w ∧ board w' = board w.
Proof.
  intros w data.
  assert (rendered w) as Hr by apply after_rendered.
  assert (listening w 0) as Hs by (vm_compute; reflexivity).
  assert (announces JSON.parse data = false) as Ha by (vm_compute; reflexivity).
  split; [exact Hr|]. split; [exact Hs|]. split; [exact Ha|].
  exact (message_not_announced JSON.parse w 0 data Hr Hs Ha).
Defined.

Lemma move_leaves_snapshot_witness :
  let w := after loading in
  rendered w ∧ is_Some (board w) ∧
  ∃ w1, step JSON.parse w (DragEnd drop_c1_on_Doing) = Some w1 ∧
        board w1 = Some scenario ∧
        ∀ d, destination drop_c1_on_Doing = Some d →
             ∀ r, ∃ w2, step JSON.parse w1 (Response 2 r) = Some w2 ∧
                        board w2 = Some scenario.
Proof.
  intros w.
  assert (rendered w) as Hr by apply after_rendered.
  assert (is_Some (board w)) as Hb by (vm_compute; eauto).
  split; [exact Hr|]. split; [exact Hb|].
  exact (move_leaves_snapshot JSON.parse w drop_c1_on_Doing Hr Hb).
Defined.

Lemma drag_end_sends_one_move_witness :
  let w := after loading in
  rendered w ∧ is_Some (board w) ∧
  (∃ w', step JSON.parse w (DragEnd drop_c1_on_Doing) = Some w' ∧
         issued w' = (issued w ++ [move_request "c1" "Doing" 0])%list) ∧
  (∃ w', step JSON.parse w (DragEnd drop_c1_nowhere) = Some w' ∧
         issued w' = (issued w ++ [])%list).
Proof.
  intros w.
  assert (rendered w) as Hr by apply after_rendered.
  assert (is_Some (board w)) as Hb by (vm_compute; eauto).
  split; [exact Hr|]. split; [exact Hb|]. split.
  - exact (drag_end_sends_one_move JSON.parse w drop_c1_on_Doing Hr Hb).
  - exact (drag_end_sends_one_move JSON.parse w drop_c1_nowhere Hr Hb).
Defined.

(** The move of the scenario, as the server receives it. *)
Example scenario_move :
  step JSON.parse (after loading) (DragEnd drop_c1_on_Doing) =
  Some (after (loading ++ [DragEnd drop_c1_on_Doing])) ∧
  last (issued (after (loading ++ [DragEnd drop_c1_on_Doing]))) =
  Some (Request POST "http://localhost:8000/api/cards/move"
          (Some {[ "card_id" := VStr "c1"; "target_column_id" := VStr "Doing";
                   "position" := VNum 0 ]})).
Proof. split; vm_compute; reflexivity. Qed.

Lemma addComment_blank_or_submit_witness :
  let blank := after (opening ++ [TypeComment "   "]) in
  let typed := after (opening ++ [TypeComment " ship it "]) in
  ∃ m m',
    rendered blank ∧ modal blank = Some m ∧ newComment m = "   " ∧
    rendered typed ∧ modal typed = Some m' ∧ newComment m' = " ship it " ∧
    (∃ w', step JSON.parse blank ClickPost = Some w' ∧ w' = blank) ∧
    (∃ w', step JSON.parse typed ClickPost = Some w' ∧
       issued w' = (issued typed ++
                    [create_comment_request (VStr "c1") "Guest_0" " ship it "])%list ∧
       modal w' = Some m' ∧
       ∀ d, ∃ w'', step JSON.parse w' (Response 3 (Fulfilled d)) = Some w'' ∧
                   issued w'' = (issued w' ++ [list_comments_request (VStr "c1")])%list).
Proof.
  intros blank typed.
  assert (rendered blank) as Hr by apply after_rendered.
  assert (rendered typed) as Hr' by apply after_rendered.
  assert (∃ m, modal blank = Some m ∧ newComment m = "   ") as (m & Hm & Hn)
    by (eexists; split; vm_compute; reflexivity).
  assert (∃ m, modal typed = Some m ∧ newComment m = " ship it ") as (m' & Hm' & Hn')
    by (eexists; split; vm_compute; reflexivity).
  exists m, m'.
  split; [exact Hr|]. split; [exact Hm|]. split; [exact Hn|].
  split; [exact Hr'|]. split; [exact Hm'|]. split; [exact Hn'|].
  pose proof (addComment_blank_or_submit JSON.parse blank m Hr Hm) as Hblank.
  pose proof (addComment_blank_or_submit JSON.parse typed m' Hr' Hm') as Htyped.
  rewrite Hn in Hblank. rewrite Hn' in Htyped.
  assert (JS.get (card m') "id" = VStr "c1") as Hid.
  { assert (modal typed = Some m') as E by exact Hm'.
    vm_compute in E. injection E as <-. reflexivity. }
  rewrite Hid in Htyped.
  split; [exact Hblank|exact Htyped].
Defined.

Lemma save_sends_merged_card_witness :
  let w := after editing in
  ∃ m,
    rendered w ∧ modal w = Some m ∧ board w = Some scenario ∧
    findCard_in (columns scenario) (JS.get (card m) "id") = Some card_c1 ∧
    title m = VStr "Fix crash" ∧ priority m = VStr "high" ∧
    ∃ w' payload,
      step JSON.parse w ClickSave = Some w' ∧
      issued w' = (issued w ++ [update_request (JS.get (card m) "id") payload])%list ∧
      JS.get payload "title" = title m ∧
      JS.get payload "description" = description m ∧
      JS.get payload "priority" = priority m ∧
      (∀ k, overridden k = false → JS.get payload k = JS.get card_c1 k) ∧
      modal w' = Some m ∧
      ∀ r, ∃ w'', step JSON.parse w' (Response (length (issued w)) r) = Some w'' ∧
                  match r with
                  | Fulfilled _ => closed w''
                  | Rejected _ => modal w'' = Some m ∧ showCardModal w'' = true ∧
                                  selectedCard w'' = selectedCard w
                  end.
Proof.
  intros w.
  assert (rendered w) as Hr by apply after_rendered.
  assert (board w = Some scenario) as Hb by (vm_compute; reflexivity).
  assert (∃ m, modal w = Some m ∧
               findCard_in (columns scenario) (JS.get (card m) "id") = Some card_c1 ∧
               title m = VStr "Fix crash" ∧ priority m = VStr "high")
    as (m & Hm & Hc & Ht & Hp)
    by (eexists; repeat split; vm_compute; reflexivity).
  exists m. split; [exact Hr|]. split; [exact Hm|]. split; [exact Hb|].
  split; [exact Hc|]. split; [exact Ht|]. split; [exact Hp|].
  exact (save_sends_merged_card JSON.parse w m scenario card_c1 Hr Hm Hb Hc).
Defined.

(** The save of the scenario, as the server receives it: the card of the
    snapshot with the new title and priority. *)
Example scenario_save :
  last (issued (after (editing ++ [ClickSave]))) =
  Some (Request PUT "http://localhost:8000/api/cards/c1"
          (Some (<[ "title" := VStr "Fix crash" ]>
                   (<[ "priority" := VStr "high" ]> card_c1)))).
Proof. vm_compute. reflexivity. Qed.

Lemma failure_changes_nothing_witness :
  let w := after [WsOpen 0] in
  let e := AxiosError (Some 500) in
  rendered w ∧ pending w !! 0 = Some loadBoard_boards ∧
  ∃ w' msg,
    step JSON.parse w (Response 0 (Rejected e)) = Some w' ∧
    w' = set_console (console w ++ [(ERROR, msg)])
           (set_pending (delete 0 (pending w)) w) ∧
    local_state w' = local_state w ∧
    issued w' = issued w ∧
    uncaught w' = uncaught w ∧
    ∀ s data, listening w s → announces JSON.parse data = true →
      ∃ w'', step JSON.parse w' (WsMessage s data) = Some w'' ∧
             issued w'' = (issued w' ++ [pull_request])%list ∧
             pending w'' !! length (issued w') = Some loadBoard_boards.
Proof.
  intros w e.
  assert (rendered w) as Hr by apply after_rendered.
  assert (pending w !! 0 = Some loadBoard_boards) as Hp by (vm_compute; reflexivity).
  split; [exact Hr|]. split; [exact Hp|].
  exact (failure_changes_nothing JSON.parse w 0 loadBoard_boards e Hr Hp).
Defined.

(** A failed pull and the event after it: the snapshot is still the one
    loaded, one error is logged, and a new pull starts. *)
Example failed_pull_then_event :
  let w := after (loading ++ [WsMessage 0 (wire_event "card_moved");
                              Response 2 (Rejected (AxiosError None));
                              WsMessage 0 (wire_event "card_updated")]) in
  board w = Some scenario ∧
  last (console w) = Some (LOG, "WebSocket message:") ∧
  (ERROR, "Error loading board:") ∈ console w ∧
  pulls w = 3 ∧ reloading w = true.
Proof.
  intros w. split; [vm_compute; reflexivity|].
  split; [vm_compute; reflexivity|].
  split; [|split; vm_compute; reflexivity].
  apply list_elem_of_In. vm_compute. tauto.
Qed.

Lemma loadBoard_selects_first_board_witness :
  let w := after [WsOpen 0] in
  let first := {[ "id" := VStr "b1"; "name" := VStr "Sprint" ]} in
  let second := {[ "id" := VStr "b2"; "name" := VStr "Backlog" ]} in
  rendered w ∧ pending w !! 0 = Some loadBoard_boards ∧ board w = None ∧
  (∃ w', step JSON.parse w (Response 0 (Fulfilled (Boards [first; second]))) = Some w' ∧
         board w' = board w ∧
         issued w' = (issued w ++ [snapshot_request (VStr "b1")])%list ∧
         ∀ snapshot,
           ∃ w'', step JSON.parse w' (Response 1 (Fulfilled (Snapshot snapshot))) = Some w'' ∧
                  board w'' = Some snapshot ∧ issued w'' = issued w') ∧
  (∃ w', step JSON.parse w (Response 0 (Fulfilled (Boards []))) = Some w' ∧
         board w' = board w ∧
         issued w' = issued w ∧ local_state w' = local_state w).
Proof.
  intros w first second.
  assert (rendered w) as Hr by apply after_rendered.
  assert (pending w !! 0 = Some loadBoard_boards) as Hp by (vm_compute; reflexivity).
  split; [exact Hr|]. split; [exact Hp|]. split; [vm_compute; reflexivity|]. split.
  - exact (loadBoard_selects_first_board JSON.parse w 0 [first; second] Hr Hp).
  - exact (loadBoard_selects_first_board JSON.parse w 0 [] Hr Hp).
Defined.

(** ** The rest of the page at work *)

Lemma filterCards_finds_witness :
  let cards := [card_c1; card_c2] in
  Forall searchable cards ∧
  filterCards "BUG" cards = inr cards ∧
  filterCards "crash" cards = inr [card_c1] ∧
  ∃ kept, filterCards "BUG" cards = inr kept ∧ sublist kept cards ∧
          ("BUG" = EmptyString → kept = cards) ∧
          ∀ c, c ∈ kept ↔ c ∈ cards ∧ found_in "BUG" c.
Proof.
  intros cards.
  assert (Forall searchable cards) as Hs.
  { repeat constructor; try (by eexists); by right. }
  split; [exact Hs|]. split; [vm_compute; reflexivity|].
  split; [vm_compute; reflexivity|].
  exact (filterCards_finds "BUG" cards Hs).
Defined.

(** A card without title among the cards: the search throws as soon as a
    text is typed, and shows every card while none is. *)
Example filterCards_untitled :
  filterCards "bug" [card_c1; card_untitled] = inl TypeError ∧
  filterCards "" [card_c1; card_untitled] = inr [card_c1; card_untitled].
Proof. split; vm_compute; reflexivity. Qed.

Lemma filterCards_idempotent_witness :
  filterCards "bug" [card_c1; card_c2] = inr [card_c1; card_c2] ∧
  filterCards "bug" [card_c1; card_c2] = inr [card_c1; card_c2].
Proof.
  assert (filterCards "bug" [card_c1; card_c2] = inr [card_c1; card_c2]) as H
    by (vm_compute; reflexivity).
  split; [exact H|].
  exact (filterCards_idempotent "bug" [card_c1; card_c2] [card_c1; card_c2] H).
Defined.

Lemma username_is_chosen_once_witness :
  let w := default initial (run JSON.parse (mount 421) editing) in
  run JSON.parse (mount 421) editing = Some w ∧
  username (mount 421) = "Guest_421" ∧
  username w = "Guest_" +:+ pretty 421.
Proof.
  intros w.
  assert (run JSON.parse (mount 421) editing = Some w) as Hrun by (vm_compute; reflexivity).
  split; [exact Hrun|]. split; [vm_compute; reflexivity|].
  exact (username_is_chosen_once JSON.parse 421 editing w Hrun).
Defined.


Lemma selection_is_coherent_witness :
  run JSON.parse (mount 0) deleted_meanwhile = Some (after deleted_meanwhile) ∧
  showCardModal (after deleted_meanwhile) = true ∧
  coherent (after deleted_meanwhile).
Proof.
  assert (run JSON.parse (mount 0) deleted_meanwhile = Some (after deleted_meanwhile))
    as Hrun by (vm_compute; reflexivity).
  split; [exact Hrun|]. split; [vm_compute; reflexivity|].
  exact (selection_is_coherent JSON.parse 0 deleted_meanwhile (after deleted_meanwhile) Hrun).
Defined.

Lemma channel_reconnects_at_most_once_witness :
  let es := reconnected ++ [WsClose 1] in
  let w := after es in
  run JSON.parse (mount 0) es = Some w ∧
  timers w = ∅ ∧ (state <$> sockets w) = [CLOSED; CLOSED] ∧
  channel_shape w ∧ (length (sockets w) ≤ 2)%nat ∧ (scheduled w ≤ 1)%nat ∧
  ∀ s sock, sockets w !! s = Some sock → wired sock = true → s = 0.
Proof.
  intros es w.
  assert (run JSON.parse (mount 0) es = Some w) as Hrun by (vm_compute; reflexivity).
  split; [exact Hrun|]. split; [vm_compute; reflexivity|].
  split; [vm_compute; reflexivity|].
  exact (channel_reconnects_at_most_once JSON.parse 0 es w Hrun).
Defined.

(** After the reconnection, events of every recognized kind and a drag are
    delivered: no pull starts. *)
Lemma no_pull_after_disconnection_witness :
  let w := after reconnected in
  let es := [ WsMessage 1 (wire_event "card_created");
              WsMessage 1 (wire_event "card_moved");
              DragEnd drop_c1_on_Doing;
              WsMessage 1 (wire_event "comment_created") ] in
  run JSON.parse (mount 0) reconnected = Some w ∧ disconnected w ∧
  run JSON.parse w es = Some (after (reconnected ++ es)) ∧
  pulls (after (reconnected ++ es)) = pulls w ∧ disconnected (after (reconnected ++ es)).
Proof.
  intros w es.
  assert (run JSON.parse (mount 0) reconnected = Some w) as Hrun
    by (vm_compute; reflexivity).
  assert (disconnected w) as Hd by (eexists; vm_compute; reflexivity).
  assert (run JSON.parse w es = Some (after (reconnected ++ es))) as Hrun'
    by (vm_compute; reflexivity).
  split; [exact Hrun|]. split; [exact Hd|]. split; [exact Hrun'|].
  exact (no_pull_after_disconnection JSON.parse 0 reconnected es w
           (after (reconnected ++ es)) Hrun Hd Hrun').
Defined.

(** A card whose id is used twice: the first one in the order of the
    columns is found. *)
Example findCard_duplicate_id :
  let twin : Card := {[ "id" := VStr "c1"; "title" := VStr "twin" ]} in
  let cols := [ {| column_id := VStr "Todo"; column_name := VStr "Todo";
                   cards := [card_c2; twin] |};
                {| column_id := VStr "Doing"; column_name := VStr "Doing";
                   cards := [card_c1] |} ] in
  findCard_in cols (VStr "c1") = Some twin ∧ findCard_in cols (VStr "c9") = None.
Proof. split; vm_compute; reflexivity. Qed.

(** The title typed is one space: it is sent as it is. *)
Lemma createCard_sends_title_as_typed_witness :
  let w := after loading in
  let col := {| column_id := VStr "Todo"; column_name := VStr "Todo"; cards := [card_c1] |} in
  rendered w ∧ board w = Some scenario ∧ columns scenario !! 0 = Some col ∧
  ∃ w', step JSON.parse w (ClickAddCard 0 (Some " ")) = Some w' ∧
        issued w' = issued w ++ [create_card_request (column_id col) " " (username w)] ∧
        local_state w' = local_state w ∧
        ∀ d, step JSON.parse w' (Response (length (issued w)) (Fulfilled d)) =
             Some (set_pending (delete (length (issued w)) (pending w')) w').
Proof.
  intros w col.
  assert (rendered w) as Hr by apply after_rendered.
  assert (board w = Some scenario) as Hb by (vm_compute; reflexivity).
  assert (columns scenario !! 0 = Some col) as Hc by reflexivity.
  split; [exact Hr|]. split; [exact Hb|]. split; [exact Hc|].
  exact (createCard_sends_title_as_typed JSON.parse w scenario 0 col (Some " ") Hr Hb Hc).
Defined.

Lemma open_card_loads_comments_witness :
  let w := after loading in
  let col := {| column_id := VStr "Todo"; column_name := VStr "Todo"; cards := [card_c1] |} in
  rendered w ∧ modal w = None ∧ board w = Some scenario ∧
  ∃ w', step JSON.parse w (ClickCard 0 0) = Some w' ∧
        modal w' = Some (fresh_modal (mounts w) card_c1) ∧
        selectedCard w' = Some card_c1 ∧ showCardModal w' = true ∧
        issued w' = issued w ++ [list_comments_request (JS.get card_c1 "id")] ∧
        ∀ cs, ∃ w'',
          step JSON.parse w' (Response (length (issued w)) (Fulfilled (Comments cs))) =
            Some w'' ∧
          modal w'' = Some (set_comments cs (fresh_modal (mounts w) card_c1)) ∧
          issued w'' = issued w'.
Proof.
  intros w col.
  assert (rendered w) as Hr by apply after_rendered.
  assert (modal w = None) as Hm by (vm_compute; reflexivity).
  assert (board w = Some scenario) as Hb by (vm_compute; reflexivity).
  assert (columns scenario !! 0 = Some col) as Hc by reflexivity.
  assert (cards col !! 0 = Some card_c1) as Hk by reflexivity.
  split; [exact Hr|]. split; [exact Hm|]. split; [exact Hb|].
  exact (open_card_loads_comments JSON.parse w scenario 0 0 col card_c1 Hr Hm Hb Hc Hk).
Defined.

(** The title and the priority were edited, not saved; the modal is closed
    and the card opened again: the modal shows the card of the board. *)
Lemma close_discards_edits_witness :
  let w := after editing in
  let m := default (fresh_modal 0 card_c1) (modal w) in
  let col := {| column_id := VStr "Todo"; column_name := VStr "Todo"; cards := [card_c1] |} in
  rendered w ∧ modal w = Some m ∧ title m = VStr "Fix crash" ∧ board w = Some scenario ∧
  ∃ w1 w2, step JSON.parse w ClickClose = Some w1 ∧
           issued w1 = issued w ∧ closed w1 ∧
           step JSON.parse w1 (ClickCard 0 0) = Some w2 ∧
           modal w2 = Some (fresh_modal (mounts w) card_c1).
Proof.
  intros w m col.
  assert (rendered w) as Hr by apply after_rendered.
  assert (modal w = Some m) as Hm by (vm_compute; reflexivity).
  assert (board w = Some scenario) as Hb by (vm_compute; reflexivity).
  assert (columns scenario !! 0 = Some col) as Hc by reflexivity.
  assert (cards col !! 0 = Some card_c1) as Hk by reflexivity.
  split; [exact Hr|]. split; [exact Hm|]. split; [vm_compute; reflexivity|].
  split; [exact Hb|].
  exact (close_discards_edits JSON.parse w m scenario 0 0 col card_c1 Hr Hm Hb Hc Hk).
Defined.

(** The comments asked for by the first modal arrive when the second one is
    on screen. *)
Lemma stale_comments_are_dropped_witness :
  let w := after reopened in
  let cs : list obj := [ {[ "id" := VStr "k1"; "text" := VStr "late" ]} ] in
  rendered w ∧ pending w !! 2 = Some (loadComments_get 0) ∧
  (instance <$> modal w) = Some 1 ∧
  step JSON.parse w (Response 2 (Fulfilled (Comments cs))) =
  Some (set_pending (delete 2 (pending w)) w).
Proof.
  intros w cs.
  assert (rendered w) as Hr by apply after_rendered.
  assert (pending w !! 2 = Some (loadComments_get 0)) as Hp by (vm_compute; reflexivity).
  assert ((instance <$> modal w) = Some 1) as Hi by (vm_compute; reflexivity).
  assert (∀ m, modal w = Some m → instance m ≠ 0) as Hm.
  { intros m E. rewrite E in Hi. injection Hi as ->. discriminate. }
  split; [exact Hr|]. split; [exact Hp|]. split; [exact Hi|].
  exact (stale_comments_are_dropped JSON.parse w 2 0 cs Hr Hp Hm).
Defined.

Lemma deleteCard_asks_first_witness :
  let w := after opening in
  let m := fresh_modal 0 card_c1 in
  rendered w ∧ modal w = Some m ∧
  (∃ w', step JSON.parse w (ClickDelete false) = Some w' ∧ w' = w) ∧
  ∃ w', step JSON.parse w (ClickDelete true) = Some w' ∧
        issued w' = issued w ++ [delete_request (JS.get (card m) "id")] ∧
        local_state w' = local_state w ∧
        ∀ r, ∃ w'', step JSON.parse w' (Response (length (issued w)) r) = Some w'' ∧
                    board w'' = board w ∧ issued w'' = issued w' ∧
                    match r with
                    | Fulfilled _ => closed w''
                    | Rejected _ =>
                        modal w'' = Some m ∧
                        console w'' = console w ++ [(ERROR, "Error deleting card:")]
                    end.
Proof.
  intros w m.
  assert (rendered w) as Hr by apply after_rendered.
  assert (modal w = Some m) as Hm by (vm_compute; reflexivity).
  split; [exact Hr|]. split; [exact Hm|].
  split.
  - exact (deleteCard_asks_first JSON.parse w m false Hr Hm).
  - exact (deleteCard_asks_first JSON.parse w m true Hr Hm).
Defined.

(** The card being edited was deleted by another user and the pull has
    removed it from the board: Save sends nothing. *)
Lemma save_of_missing_card_witness :
  let w := after deleted_meanwhile in
  let m := default (fresh_modal 0 card_c1) (modal w) in
  run JSON.parse (mount 0) deleted_meanwhile = Some w ∧
  rendered w ∧ modal w = Some m ∧ card m = card_c1 ∧
  board w = Some scenario_without_c1 ∧
  step JSON.parse w ClickSave =
  Some (set_console (console w ++ [(ERROR, "Error updating card:")]) w).
Proof.
  intros w m.
  assert (rendered w) as Hr by apply after_rendered.
  assert (modal w = Some m) as Hm by (vm_compute; reflexivity).
  assert (board w = Some scenario_without_c1) as Hb by (vm_compute; reflexivity).
  assert (findCard_in (columns scenario_without_c1) (JS.get (card m) "id") = None) as Hf
    by (vm_compute; reflexivity).
  split; [vm_compute; reflexivity|].
  split; [exact Hr|]. split; [exact Hm|]. split; [vm_compute; reflexivity|].
  split; [exact Hb|].
  exact (save_of_missing_card JSON.parse w m scenario_without_c1 Hr Hm Hb Hf).
Defined.

Lemma posted_comment_is_shown_witness :
  let w := after commenting in
  let m := default (fresh_modal 0 card_c1) (modal w) in
  let cs : list obj := [ {[ "id" := VStr "k1"; "text" := VStr "ship it" ]} ] in
  run JSON.parse (mount 0) commenting = Some w ∧
  rendered w ∧ modal w = Some m ∧ newComment m = "ship it" ∧
  pending w !! 3 = Some (addComment_post (instance m) (card m)) ∧
  ∃ w1 w2,
    step JSON.parse w (Response 3 (Fulfilled (Other VNull))) = Some w1 ∧
    modal w1 = Some (set_newComment EmptyString m) ∧
    issued w1 = issued w ++ [list_comments_request (JS.get (card m) "id")] ∧
    step JSON.parse w1 (Response (length (issued w)) (Fulfilled (Comments cs))) = Some w2 ∧
    modal w2 = Some (set_comments cs (set_newComment EmptyString m)) ∧
    issued w2 = issued w1.
Proof.
  intros w m cs.
  assert (rendered w) as Hr by apply after_rendered.
  assert (modal w = Some m) as Hm by (vm_compute; reflexivity).
  assert (pending w !! 3 = Some (addComment_post (instance m) (card m))) as Hp
    by (vm_compute; reflexivity).
  split; [vm_compute; reflexivity|].
  split; [exact Hr|]. split; [exact Hm|]. split; [vm_compute; reflexivity|].
  split; [exact Hp|].
  exact (posted_comment_is_shown JSON.parse w m 3 (Other VNull) cs Hr Hm Hp).
Defined.

(** The page is left while the channel is open. *)
Lemma cleanup_close_reconnects_witness :
  let w := after loading in
  rendered w ∧ listening w 0 ∧
  ∃ w1, (cleanup 0 w).2 = w1 ∧
        sockets w1 !! 0 = Some {| state := CLOSING; wired := true |} ∧
        ∃ w2, step JSON.parse w1 (WsClose 0) = Some w2 ∧
              sockets w2 !! 0 = Some {| state := CLOSED; wired := true |} ∧
              timers w2 = <[scheduled w := {| delay := 3000; action := Reconnect |}]>
                            (timers w) ∧
              ∃ w3, step JSON.parse w2 (TimerFired (scheduled w)) = Some w3 ∧
                    sockets w3 = sockets w2 ++ [ {| state := CONNECTING; wired := false |} ].
Proof.
  intros w.
  assert (rendered w) as Hr by apply after_rendered.
  assert (listening w 0) as Hl by (vm_compute; reflexivity).
  split; [exact Hr|]. split; [exact Hl|].
  exact (cleanup_close_reconnects JSON.parse w 0 Hr Hl).
Defined.
